(** * SglangClient: the Node binding's client wrapper (bindings/node/client.js)

    A shallow embedding of [class SglangClient] and of what its callers can
    observe of it: the calls it makes on the native handle, on [JSON.parse],
    on the consumer's callbacks and on the console, in the order it makes
    them, and the value or exception each method produces. *)

From Stdlib Require Import String Ascii List ZArith Bool Lia.
Import ListNotations.
Local Open Scope string_scope.
Local Open Scope list_scope.
#[local] Set Warnings "-register-all".

(** ** JavaScript values *)

(** The values [JSON.parse] produces and [JSON.stringify] consumes.  [JNull]
    is JavaScript's [null]; a missing property ([undefined]) is [None] of
    [option Json].  Numbers are the integers the request, response and chunk
    records carry. *)
Inductive Json : Type :=
| JNull
| JBool (b : bool)
| JNum (n : Z)
| JStr (s : string)
| JArr (xs : list Json)
| JObj (props : list (string * Json)).

(** A plain object: its own properties in insertion order. *)
Definition JsObject := list (string * Json).

(** [o.k]: the first property named [k], [undefined] when there is none. *)
Fixpoint get_prop (k : string) (o : JsObject) : option Json :=
  match o with
  | [] => None
  | (k', v) :: rest => if String.eqb k k' then Some v else get_prop k rest
  end.

(** ToBoolean, as [if (x)] applies it. *)
Definition truthy (v : option Json) : bool :=
  match v with
  | None => false
  | Some JNull => false
  | Some (JBool b) => b
  | Some (JNum n) => negb (n =? 0)%Z
  | Some (JStr s) => negb (String.eqb s EmptyString)
  | Some (JArr _) => true
  | Some (JObj _) => true
  end.

(** ToString of a value that is a string or [null], as [JSON.parse] applies
    it to its argument. *)
Definition ToString (v : option string) : string :=
  match v with
  | Some s => s
  | None => "null"
  end.

(** An exception value: an [Error] object with its [name] and [message]. *)
Record JsError : Type := mkError { err_name : string; err_message : string }.

(** [new Error(msg)]. *)
Definition Error (msg : string) : JsError := mkError "Error" msg.

(** The outcome of a call: it returns [a] or throws [e].  For an [async]
    function and for a promise it is the settlement: fulfilled with [a] or
    rejected with [e]. *)
Inductive Result (A : Type) : Type :=
| Ok (a : A)
| Throw (e : JsError).
Arguments Ok {A} a.
Arguments Throw {A} e.

(** ** What the client does to the outside *)

Inductive Event : Type :=
| EvTokenizerEncode (text : string)          (* inner.tokenizerEncode(text) *)
| EvTokenizerDecode (tokenIds : list Z)      (* inner.tokenizerDecode(tokenIds) *)
| EvNativeChatCompletion (jsonStr : string)  (* inner.chatCompletion(jsonStr) *)
| EvNativeChatCompletionStream (jsonStr : string)
                                             (* inner.chatCompletionStream(jsonStr, cb) *)
| EvJsonParse (text : string)                (* JSON.parse(text) *)
| EvOnChunk (chunk : Json)                   (* onChunk(chunk) *)
| EvOnError (e : JsError)                    (* onError(e) *)
| EvConsoleError (msg : string) (e : JsError)(* console.error(msg, e) *)
| EvUncaught (e : JsError).                  (* e leaves the callback, into the native caller *)

(** ** Effects: consumer state, emitted events, exceptions *)

Definition Eff (St A : Type) : Type := St -> St * list Event * Result A.

Definition ret {St A} (a : A) : Eff St A := fun s => (s, [], Ok a).

Definition throw {St A} (e : JsError) : Eff St A := fun s => (s, [], Throw e).

Definition emit {St} (ev : Event) : Eff St unit := fun s => (s, [ev], Ok tt).

Definition bind {St A B} (m : Eff St A) (k : A -> Eff St B) : Eff St B :=
  fun s =>
    match m s with
    | (s1, t1, Ok a) =>
        match k a s1 with
        | (s2, t2, r) => (s2, t1 ++ t2, r)
        end
    | (s1, t1, Throw e) => (s1, t1, Throw e)
    end.

(** [try { m } catch (e) { h e }]. *)
Definition try_catch {St A} (m : Eff St A) (h : JsError -> Eff St A) : Eff St A :=
  fun s =>
    match m s with
    | (s1, t1, Ok a) => (s1, t1, Ok a)
    | (s1, t1, Throw e) =>
        match h e s1 with
        | (s2, t2, r) => (s2, t1 ++ t2, r)
        end
    end.

(** The outcome of a call that was made, lifted with its event. *)
Definition perform {St A} (ev : Event) (r : Result A) : Eff St A :=
  fun s => (s, [ev], r).

Declare Scope eff_scope.
Delimit Scope eff_scope with eff.
Notation "x <- m ;; k" := (bind m (fun x => k))
  (at level 61, m at next level, right associativity) : eff_scope.
Notation "m ;; k" := (bind m (fun _ => k))
  (at level 61, right associativity) : eff_scope.
Local Open Scope eff_scope.

(** The three parts of a run: the consumer's state after it, what was
    called during it, and what it produced. *)
Definition final_state {St R} (x : St * list Event * R) : St := fst (fst x).
Definition events {St R} (x : St * list Event * R) : list Event := snd (fst x).
Definition outcome {St R} (x : St * list Event * R) : R := snd x.

(** ** The native handle ([this.inner], from ./index) *)

(** One call of the callback handed to [inner.chatCompletionStream]:
    [(err, chunkStr)].  [err] is [null] or an error object; [chunkStr] is a
    string or [null]. *)
Record Invocation : Type := mkInvocation {
  inv_err : option JsError;
  inv_chunk : option string
}.

Module Native.
(** The native client is external: it is given by what each of its methods
    answers.  [chatCompletion] returns a promise, given by its settlement;
    [chatCompletionStream] returns at once and is given by the calls it
    then makes on the callback, in order. *)
Record t : Type := mk {
  tokenizerEncode : string -> Result (list Z);
  tokenizerDecode : list Z -> Result string;
  chatCompletion : string -> Result string;
  chatCompletionStream : string -> list Invocation
}.
End Native.

(** ** The consumer of a stream *)

(** The two callbacks handed to [chatCompletionStream].  Each may change the
    consumer's own state and may throw. *)
Record Consumer (St : Type) : Type := mkConsumer {
  onChunk : Json -> St -> St * Result unit;
  onError : JsError -> St -> St * Result unit
}.
Arguments onChunk {St} c chunk s.
Arguments onError {St} c e s.
Arguments mkConsumer {St} onChunk onError.

Definition call_onChunk {St} (c : Consumer St) (chunk : Json) : Eff St unit :=
  fun s => let (s', r) := onChunk c chunk s in (s', [EvOnChunk chunk], r).

Definition call_onError {St} (c : Consumer St) (e : JsError) : Eff St unit :=
  fun s => let (s', r) := onError c e s in (s', [EvOnError e], r).

(** ** Async generators *)

(** The generator of [chatCompletion] has no [yield]: it is either not yet
    started or finished. *)
Inductive GenState : Type := SuspendedStart | Completed.

(** [{ value, done }]. *)
Record IterResult : Type := mkIter { iter_value : option Json; iter_done : bool }.

(** What [chatCompletion] resolves to. *)
Inductive ChatResult : Type :=
| Unary (response : Json)          (* the parsed response *)
| AsyncIterable.                   (* { [Symbol.asyncIterator]: async function* () {...} } *)

(** How a [for await] loop over a generator ends. *)
Inductive LoopEnd : Type :=
| LoopDone                         (* the generator reported done *)
| LoopThrew (e : JsError)          (* next() rejected *)
| LoopRunning.                     (* still iterating after the given number of steps *)

Module SglangClient.
Section Client.
Context {St : Type}.
Variable JSON_stringify : Json -> string.
Variable JSON_parse : string -> Result Json.
(** [this.inner] *)
Variable inner : Native.t.

Definition parse (text : string) : Eff St Json :=
  perform (EvJsonParse text) (JSON_parse text).

(** [encode(text)] *)
Definition encode (text : string) : Eff St (list Z) :=
  perform (EvTokenizerEncode text) (Native.tokenizerEncode inner text).

(** [decode(tokenIds)] *)
Definition decode (tokenIds : list Z) : Eff St string :=
  perform (EvTokenizerDecode tokenIds) (Native.tokenizerDecode inner tokenIds).

(** *** The iterator of [chatCompletion] *)

(** The generator's local variables.  [resolveQueue] is [null] ([false]) or
    a pending [resolve] function ([true]). *)
Record IterLocals : Type := mkLocals {
  queue : list Json;
  resolveQueue : bool;
  done : bool;
  error : option JsError
}.

(** [const callback = (err, chunk) => {...}] of the generator.  It is
    defined and never handed to anything. *)
Definition iterator_callback (inv : Invocation) : Eff IterLocals unit :=
  (match inv_err inv with
   | Some err => fun l => (mkLocals (queue l) (resolveQueue l) (done l) (Some err), [], Ok tt)
   | None =>
       try_catch
         (match inv_chunk inv with
          | Some chunk =>
              if String.eqb chunk EmptyString
              then ret tt
              else
                fun l =>
                  match JSON_parse chunk with
                  | Ok v => (mkLocals (queue l ++ [v]) (resolveQueue l) (done l) (error l),
                             [EvJsonParse chunk], Ok tt)
                  | Throw e => (l, [EvJsonParse chunk], Throw e)
                  end
          | None => ret tt
          end)
         (fun e => emit (EvConsoleError "Error parsing chunk" e))
   end) ;;
  fun l =>
    if resolveQueue l
    then (mkLocals (queue l) false (done l) (error l), [], Ok tt)
    else (l, [], Ok tt).

(** The body of [async function* ()], run by the first [next()]. *)
Definition asyncIterator_body : Eff St IterResult :=
  let locals := mkLocals [] false false None in
  let callback := iterator_callback in
  throw (Error "Streaming interface requires update to native binding to signal completion.").

(** [iterable[Symbol.asyncIterator]()]: a generator object whose body has
    not started. *)
Definition Symbol_asyncIterator (it : ChatResult) : option GenState :=
  match it with
  | AsyncIterable => Some SuspendedStart
  | Unary _ => None
  end.

(** [gen.next()]: the new state of the generator and the settlement of the
    promise it returns. *)
Definition next (g : GenState) : St -> GenState * (St * list Event * Result IterResult) :=
  fun s =>
    match g with
    | SuspendedStart => (Completed, asyncIterator_body s)
    | Completed => (Completed, ret (mkIter None true) s)
    end.

(** [for await (const x of iterable) collect x], at most [steps] calls of
    [next()]: the values received, in order, and how the loop ended. *)
Fixpoint for_await (steps : nat) (g : GenState) (s : St)
  : St * list Event * (list Json * LoopEnd) :=
  match steps with
  | O => (s, [], ([], LoopRunning))
  | S steps' =>
      match next g s with
      | (_, (s1, t1, Throw e)) => (s1, t1, ([], LoopThrew e))
      | (g1, (s1, t1, Ok it)) =>
          if iter_done it
          then (s1, t1, ([], LoopDone))
          else
            match for_await steps' g1 s1 with
            | (s2, t2, (vs, fin)) =>
                (s2, t1 ++ t2,
                 (match iter_value it with Some v => v :: vs | None => vs end, fin))
            end
      end
  end.

(** [async chatCompletion(request)] *)
Definition chatCompletion (request : JsObject) : Eff St ChatResult :=
  let jsonStr := JSON_stringify (JObj request) in
  if truthy (get_prop "stream" request)
  then ret AsyncIterable
  else
    responseStr <- perform (EvNativeChatCompletion jsonStr)
                           (Native.chatCompletion inner jsonStr) ;;
    response <- parse responseStr ;;
    ret (Unary response).

(** *** The raw stream method *)

(** [chunkStr === "null" || chunkStr === null] *)
Definition is_end_signal (chunkStr : option string) : bool :=
  match chunkStr with
  | Some s => String.eqb s "null"
  | None => true
  end.

(** The arrow function handed to [inner.chatCompletionStream]. *)
Definition stream_callback (c : Consumer St) (inv : Invocation) : Eff St unit :=
  match inv_err inv with
  | Some err => call_onError c err
  | None =>
      if is_end_signal (inv_chunk inv)
      then call_onChunk c JNull
      else
        try_catch
          (chunk <- parse (ToString (inv_chunk inv)) ;;
           call_onChunk c chunk)
          (fun e => call_onError c e)
  end.

(** The native side calling the callback [cb(err, chunkStr)] once.  The
    callback belongs to the client; an exception that leaves it goes to the
    native caller. *)
Definition invoke (cb : Invocation -> Eff St unit) (inv : Invocation) : Eff St unit :=
  try_catch (cb inv) (fun e => emit (EvUncaught e)).

(** The native side making its invocations, in order. *)
Fixpoint deliver (cb : Invocation -> Eff St unit) (invs : list Invocation) : Eff St unit :=
  match invs with
  | [] => ret tt
  | inv :: rest => invoke cb inv ;; deliver cb rest
  end.

(** [chatCompletionStream(request, onChunk, onError)], with the calls the
    native side makes on the callback afterwards. *)
Definition chatCompletionStream (request : JsObject) (c : Consumer St) : Eff St unit :=
  let jsonStr := JSON_stringify (JObj request) in
  emit (EvNativeChatCompletionStream jsonStr) ;;
  deliver (stream_callback c) (Native.chatCompletionStream inner jsonStr).

End Client.
End SglangClient.

(** ** A reference [JSON]

    [JSON.parse] and [JSON.stringify] are built-ins: the client is embedded
    over any pair of them (the Section variables above).  The pair below is
    an instance to run the client on: JSON with integer numbers and with the
    two-character string escapes. *)

Module JSON.
Local Open Scope char_scope.

Definition SyntaxError (msg : string) : JsError := mkError "SyntaxError" msg.

Definition is_ws (c : ascii) : bool :=
  match c with
  | " " | "009" | "010" | "013" => true
  | _ => false
  end.

Fixpoint skip_ws (l : list ascii) : list ascii :=
  match l with
  | c :: r => if is_ws c then skip_ws r else l
  | [] => []
  end.

Definition digit_of (c : ascii) : option Z :=
  let n := Z.of_nat (nat_of_ascii c) in
  if ((48 <=? n) && (n <=? 57))%Z then Some (n - 48)%Z else None.

Fixpoint parse_digits (acc : Z) (l : list ascii) : Z * list ascii :=
  match l with
  | c :: r =>
      match digit_of c with
      | Some d => parse_digits (10 * acc + d)%Z r
      | None => (acc, l)
      end
  | [] => (acc, [])
  end.

(** [0] or a digit sequence without leading zero. *)
Definition parse_int (l : list ascii) : option (Z * list ascii) :=
  match l with
  | c :: r =>
      match digit_of c with
      | Some 0%Z => Some (0%Z, r)
      | Some d => Some (parse_digits d r)
      | None => None
      end
  | [] => None
  end.

Definition unescape (c : ascii) : option ascii :=
  match c with
  | "034" => Some "034"
  | "\" => Some "\"
  | "/" => Some "/"
  | "b" => Some "008"
  | "f" => Some "012"
  | "n" => Some "010"
  | "r" => Some "013"
  | "t" => Some "009"
  | _ => None
  end.

(** The characters after an opening quote, up to the closing one. *)
Fixpoint parse_chars (l : list ascii) : option (string * list ascii) :=
  match l with
  | [] => None
  | "034" :: r => Some (EmptyString, r)
  | "\" :: e :: r =>
      match unescape e, parse_chars r with
      | Some c, Some (s, r') => Some (String c s, r')
      | _, _ => None
      end
  | c :: r =>
      if (nat_of_ascii c <? 32)%nat then None
      else
        match parse_chars r with
        | Some (s, r') => Some (String c s, r')
        | None => None
        end
  end.

(** [o[k] = v]: a key that is present keeps its place. *)
Fixpoint set_prop (k : string) (v : Json) (o : JsObject) : JsObject :=
  match o with
  | [] => [(k, v)]
  | (k', v') :: rest =>
      if String.eqb k k' then (k', v) :: rest else (k', v') :: set_prop k v rest
  end.

Fixpoint parse_value (fuel : nat) (l : list ascii) {struct fuel}
  : option (Json * list ascii) :=
  match fuel with
  | O => None
  | S fuel' =>
      match skip_ws l with
      | "n" :: "u" :: "l" :: "l" :: r => Some (JNull, r)
      | "t" :: "r" :: "u" :: "e" :: r => Some (JBool true, r)
      | "f" :: "a" :: "l" :: "s" :: "e" :: r => Some (JBool false, r)
      | "034" :: r =>
          match parse_chars r with
          | Some (s, r') => Some (JStr s, r')
          | None => None
          end
      | "[" :: r =>
          match skip_ws r with
          | "]" :: r' => Some (JArr [], r')
          | _ =>
              match parse_elements fuel' r with
              | Some (xs, r') => Some (JArr xs, r')
              | None => None
              end
          end
      | "{" :: r =>
          match skip_ws r with
          | "}" :: r' => Some (JObj [], r')
          | _ =>
              match parse_members fuel' [] r with
              | Some (o, r') => Some (JObj o, r')
              | None => None
              end
          end
      | "-" :: r =>
          match parse_int r with
          | Some (n, r') => Some (JNum (- n), r')
          | None => None
          end
      | r =>
          match parse_int r with
          | Some (n, r') => Some (JNum n, r')
          | None => None
          end
      end
  end
with parse_elements (fuel : nat) (l : list ascii) {struct fuel}
  : option (list Json * list ascii) :=
  match fuel with
  | O => None
  | S fuel' =>
      match parse_value fuel' l with
      | Some (v, r) =>
          match skip_ws r with
          | "," :: r' =>
              match parse_elements fuel' r' with
              | Some (vs, r'') => Some (v :: vs, r'')
              | None => None
              end
          | "]" :: r' => Some ([v], r')
          | _ => None
          end
      | None => None
      end
  end
with parse_members (fuel : nat) (acc : JsObject) (l : list ascii) {struct fuel}
  : option (JsObject * list ascii) :=
  match fuel with
  | O => None
  | S fuel' =>
      match skip_ws l with
      | "034" :: r =>
          match parse_chars r with
          | Some (k, r1) =>
              match skip_ws r1 with
              | ":" :: r2 =>
                  match parse_value fuel' r2 with
                  | Some (v, r3) =>
                      match skip_ws r3 with
                      | "," :: r4 => parse_members fuel' (set_prop k v acc) r4
                      | "}" :: r4 => Some (set_prop k v acc, r4)
                      | _ => None
                      end
                  | None => None
                  end
              | _ => None
              end
          | None => None
          end
      | _ => None
      end
  end.

(** [JSON.parse(text)] *)
Definition parse (text : string) : Result Json :=
  let l := list_ascii_of_string text in
  match parse_value (2 * length l + 2) l with
  | Some (v, r) =>
      match skip_ws r with
      | [] => Ok v
      | _ => Throw (SyntaxError "Unexpected non-whitespace character after JSON")
      end
  | None => Throw (SyntaxError "Unexpected token in JSON")
  end.

Definition hex_digit (n : nat) : ascii :=
  ascii_of_nat (if (n <? 10)%nat then 48 + n else 87 + n).

Definition escape_char (c : ascii) : string :=
  match c with
  | "034" => String "\" (String "034" EmptyString)
  | "\" => "\\"%string
  | "008" => "\b"%string
  | "012" => "\f"%string
  | "010" => "\n"%string
  | "013" => "\r"%string
  | "009" => "\t"%string
  | _ =>
      let n := nat_of_ascii c in
      if (n <? 32)%nat
      then ("\u00" ++ String (hex_digit (n / 16)) (String (hex_digit (n mod 16)) EmptyString))%string
      else String c EmptyString
  end.

Fixpoint escape (s : string) : string :=
  match s with
  | EmptyString => EmptyString
  | String c r => (escape_char c ++ escape r)%string
  end.

Definition quote (s : string) : string :=
  String "034" (escape s ++ String "034" EmptyString)%string.

Fixpoint digits_of (fuel : nat) (n : Z) (acc : string) : string :=
  match fuel with
  | O => acc
  | S fuel' =>
      let acc' := String (ascii_of_nat (48 + Z.to_nat (n mod 10))) acc in
      if (n <? 10)%Z then acc' else digits_of fuel' (n / 10)%Z acc'
  end.

Definition number_to_string (n : Z) : string :=
  let a := Z.abs n in
  let ds := digits_of (S (Z.to_nat (Z.log2 a))) a EmptyString in
  if (n <? 0)%Z then String "-" ds else ds.

Definition join (sep : string) (parts : list string) : string :=
  match parts with
  | [] => EmptyString
  | p :: ps => fold_left (fun acc q => (acc ++ sep ++ q)%string) ps p
  end.

(** [JSON.stringify(value)] *)
Fixpoint stringify (v : Json) : string :=
  match v with
  | JNull => "null"%string
  | JBool true => "true"%string
  | JBool false => "false"%string
  | JNum n => number_to_string n
  | JStr s => quote s
  | JArr xs => ("[" ++ join "," (map stringify xs) ++ "]")%string
  | JObj o =>
      ("{" ++ join "," (map (fun kv => (quote (fst kv) ++ ":" ++ stringify (snd kv))%string) o)
           ++ "}")%string
  end.
End JSON.

(** ** Observations on a run *)

(** The arguments of the [onChunk] calls, in call order. *)
Fixpoint onChunk_args (t : list Event) : list Json :=
  match t with
  | [] => []
  | EvOnChunk v :: rest => v :: onChunk_args rest
  | _ :: rest => onChunk_args rest
  end.

(** The calls made on the consumer, in call order. *)
Definition is_consumer_call (ev : Event) : bool :=
  match ev with
  | EvOnChunk _ | EvOnError _ => true
  | _ => false
  end.

Definition consumer_calls (t : list Event) : list Event := filter is_consumer_call t.

(** A terminal event as the consumer sees it: [onChunk(null)], the end of the
    stream, or [onError(e)]. *)
Definition is_terminal_event (ev : Event) : bool :=
  match ev with
  | EvOnChunk JNull => true
  | EvOnError _ => true
  | _ => false
  end.

Definition terminal_count (t : list Event) : nat :=
  length (filter is_terminal_event t).

(** No call reaches the consumer after its first terminal event. *)
Fixpoint silent_after_terminal (t : list Event) : bool :=
  match t with
  | [] => true
  | ev :: rest =>
      if is_terminal_event ev
      then match consumer_calls rest with [] => true | _ => false end
      else silent_after_terminal rest
  end.

Definition is_native_call (ev : Event) : bool :=
  match ev with
  | EvTokenizerEncode _ | EvTokenizerDecode _
  | EvNativeChatCompletion _ | EvNativeChatCompletionStream _ => true
  | _ => false
  end.

Definition is_parse_call (ev : Event) : bool :=
  match ev with
  | EvJsonParse _ => true
  | _ => false
  end.

(** ** What the transport's invocations carry *)

Section Carried.
Variable JSON_parse : string -> Result Json.

(** The value a non-error invocation carries: [null] for the end signal,
    the parsed payload for a payload that parses. *)
Definition carried_value (inv : Invocation) : list Json :=
  match inv_err inv with
  | Some _ => []
  | None =>
      if SglangClient.is_end_signal (inv_chunk inv) then [JNull]
      else
        match JSON_parse (ToString (inv_chunk inv)) with
        | Ok v => [v]
        | Throw _ => []
        end
  end.

Definition carried (invs : list Invocation) : list Json :=
  flat_map carried_value invs.

(** An invocation that ends the stream for the consumer: an error, the end
    signal, a payload that does not parse, or one that parses to [null]. *)
Definition ends_stream (inv : Invocation) : bool :=
  match inv_err inv with
  | Some _ => true
  | None =>
      if SglangClient.is_end_signal (inv_chunk inv) then true
      else
        match JSON_parse (ToString (inv_chunk inv)) with
        | Ok JNull => true
        | Ok _ => false
        | Throw _ => true
        end
  end.

(** A ["null"] payload read as the explicit end signal [null]. *)
Definition null_string_as_null (inv : Invocation) : Invocation :=
  match inv_err inv, inv_chunk inv with
  | None, Some s => if String.eqb s "null" then mkInvocation None None else inv
  | _, _ => inv
  end.
End Carried.

(** ** The record shapes of the data model (spec, section 3) *)

Module Shape.
Definition is_string (v : option Json) : bool :=
  match v with Some (JStr _) => true | _ => false end.

Definition is_integer (v : option Json) : bool :=
  match v with Some (JNum _) => true | _ => false end.

Definition is_role (v : option Json) : bool :=
  match v with
  | Some (JStr r) => String.eqb r "user" || String.eqb r "assistant" || String.eqb r "system"
  | _ => false
  end.

Definition is_finish_reason (v : option Json) : bool :=
  match v with Some JNull => true | Some (JStr _) => true | _ => false end.

Definition is_message (v : option Json) : bool :=
  match v with
  | Some (JObj m) => is_role (get_prop "role" m) && is_string (get_prop "content" m)
  | _ => false
  end.

Definition is_choice (v : Json) : bool :=
  match v with
  | JObj c =>
      is_integer (get_prop "index" c) && is_message (get_prop "message" c)
      && is_finish_reason (get_prop "finish_reason" c)
  | _ => false
  end.

Definition is_usage (v : option Json) : bool :=
  match v with
  | Some (JObj u) =>
      match get_prop "prompt_tokens" u, get_prop "completion_tokens" u,
            get_prop "total_tokens" u with
      | Some (JNum p), Some (JNum c), Some (JNum t) =>
          (0 <=? p)%Z && (0 <=? c)%Z && (0 <=? t)%Z && (t =? p + c)%Z
      | _, _, _ => false
      end
  | _ => false
  end.

(** UnaryResponse: id, model, created, a non-empty [choices], usage. *)
Definition is_UnaryResponse (v : Json) : bool :=
  match v with
  | JObj r =>
      is_string (get_prop "id" r) && is_string (get_prop "model" r)
      && is_integer (get_prop "created" r)
      && match get_prop "choices" r with
         | Some (JArr (c :: cs)) => forallb is_choice (c :: cs)
         | _ => false
         end
      && is_usage (get_prop "usage" r)
  | _ => false
  end.

Definition is_delta (v : option Json) : bool :=
  match v with
  | Some (JObj d) =>
      match get_prop "content" d with
      | None => true
      | Some (JStr _) => true
      | Some _ => false
      end
  | _ => false
  end.

Definition is_chunk_choice (v : Json) : bool :=
  match v with
  | JObj c =>
      is_integer (get_prop "index" c) && is_delta (get_prop "delta" c)
      && is_finish_reason (get_prop "finish_reason" c)
  | _ => false
  end.

(** StreamFragment: id, created, choices with a delta each. *)
Definition is_StreamFragment (v : Json) : bool :=
  match v with
  | JObj r =>
      is_string (get_prop "id" r) && is_integer (get_prop "created" r)
      && match get_prop "choices" r with
         | Some (JArr cs) => forallb is_chunk_choice cs
         | _ => false
         end
  | _ => false
  end.
End Shape.

(** ** Handles, consumers and requests to run the client on *)

Module Fixture.
Definition TokenizerError (msg : string) : JsError := mkError "TokenizerError" msg.

(** A tokenizer over single characters: a character's id is its code. *)
Definition char_encode (text : string) : Result (list Z) :=
  Ok (map (fun c => Z.of_nat (nat_of_ascii c)) (list_ascii_of_string text)).

Definition char_decode (ids : list Z) : Result string :=
  if forallb (fun i => (0 <=? i)%Z && (i <? 256)%Z) ids
  then Ok (string_of_list_ascii (map (fun i => ascii_of_nat (Z.to_nat i)) ids))
  else Throw (TokenizerError "token id out of range").

(** A handle that settles its unary call with [unary] and makes the
    callback invocations [script]. *)
Definition handle (unary : Result string) (script : list Invocation) : Native.t :=
  Native.mk char_encode char_decode (fun _ => unary) (fun _ => script).

(** A handle whose tokenizer always fails. *)
Definition broken_tokenizer : Native.t :=
  Native.mk (fun _ => Throw (TokenizerError "no vocabulary"))
            (fun _ => Throw (TokenizerError "no vocabulary"))
            (fun _ => Ok "{}") (fun _ => []).

Definition fragment (payload : string) : Invocation := mkInvocation None (Some payload).
Definition end_signal : Invocation := mkInvocation None None.
Definition failure (e : JsError) : Invocation := mkInvocation (Some e) None.

(** A consumer that keeps what it is given: the chunks and the errors. *)
Definition keeper : Consumer (list Json * list JsError) :=
  mkConsumer (fun chunk s => ((fst s ++ [chunk], snd s), Ok tt))
             (fun e s => ((fst s, snd s ++ [e]), Ok tt)).

(** A consumer whose [onChunk] throws on every chunk that is not [null]. *)
Definition fussy : Consumer unit :=
  mkConsumer (fun chunk s =>
                match chunk with
                | JNull => (s, Ok tt)
                | _ => (s, Throw (Error "cannot handle chunk"))
                end)
             (fun e s => (s, Ok tt)).

Definition message (role content : string) : Json :=
  JObj [("role", JStr role); ("content", JStr content)].

(** [{model:"m", messages:[{role:"user",content:"Hi"}], stream:true}] *)
Definition stream_request : JsObject :=
  [("model", JStr "m"); ("messages", JArr [message "user" "Hi"]); ("stream", JBool true)].

(** The same request with [stream:false]. *)
Definition unary_request : JsObject :=
  [("model", JStr "m"); ("messages", JArr [message "user" "Hi"]); ("stream", JBool false)].

(** A request without a [stream] property, as the integration test sends. *)
Definition plain_request : JsObject :=
  [("model", JStr "m"); ("messages", JArr [message "user" "Hi"]); ("max_tokens", JNum 64)].

Definition chunk_payload (content : string) : string :=
  JSON.stringify
    (JObj [("id", JStr "c1"); ("created", JNum 1234567890);
           ("choices", JArr [JObj [("index", JNum 0);
                                   ("delta", JObj [("content", JStr content)]);
                                   ("finish_reason", JNull)]])]).

Definition response_payload : string :=
  JSON.stringify
    (JObj [("id", JStr "test-id"); ("model", JStr "default"); ("created", JNum 1234567890);
           ("choices", JArr [JObj [("index", JNum 0);
                                   ("message", message "assistant" "Hello");
                                   ("finish_reason", JStr "stop")]]);
           ("usage", JObj [("prompt_tokens", JNum 10); ("completion_tokens", JNum 20);
                           ("total_tokens", JNum 30)])]).

(** [{"id":"r1"}] *)
Definition id_only_payload : string := JSON.stringify (JObj [("id", JStr "r1")]).

(** [{"id":5}] *)
Definition wrong_type_payload : string := JSON.stringify (JObj [("id", JNum 5)]).

Definition transport_down : JsError := mkError "Error" "transport error".
End Fixture.

(** The error of the unfinished iterator. *)
Definition unimplemented : JsError :=
  Error "Streaming interface requires update to native binding to signal completion.".

Module Run.
Import Fixture.

(** [chatCompletionStream] on the reference [JSON], on a handle that makes
    the invocations [script], for the consumer that keeps what it gets. *)
Definition stream (script : list Invocation) :=
  SglangClient.chatCompletionStream JSON.stringify JSON.parse
    (handle (Ok response_payload) script) stream_request keeper ([], []).

Definition sent : Event :=
  EvNativeChatCompletionStream (JSON.stringify (JObj stream_request)).

Definition chunk (content : string) : Json :=
  JObj [("id", JStr "c1"); ("created", JNum 1234567890);
        ("choices", JArr [JObj [("index", JNum 0);
                                ("delta", JObj [("content", JStr content)]);
                                ("finish_reason", JNull)]])].
End Run.

(** ** Expressions on parsed values, as the tests' callbacks use them *)

Module JS.
Definition TypeError (msg : string) : JsError := mkError "TypeError" msg.

Definition cannot_read (what k : string) : JsError :=
  TypeError ("Cannot read properties of " ++ what ++ " (reading '" ++ k ++ "')").

(** [v.k] for a name [k] that is no index, not [length] and on no built-in
    prototype: an own property of an object, [undefined] on any other value,
    a TypeError on [null] and [undefined]. *)
Definition member (v : option Json) (k : string) : Result (option Json) :=
  match v with
  | None => Throw (cannot_read "undefined" k)
  | Some JNull => Throw (cannot_read "null" k)
  | Some (JObj o) => Ok (get_prop k o)
  | Some _ => Ok None
  end.

(** [v[0]] *)
Definition first (v : option Json) : Result (option Json) :=
  match v with
  | None => Throw (cannot_read "undefined" "0")
  | Some JNull => Throw (cannot_read "null" "0")
  | Some (JArr xs) => Ok (hd_error xs)
  | Some (JStr (String ch _)) => Ok (Some (JStr (String ch EmptyString)))
  | Some (JStr EmptyString) => Ok None
  | Some (JObj o) => Ok (get_prop "0" o)
  | Some _ => Ok None
  end.

(** ToString, as [s += v] applies it to [v]. *)
Fixpoint to_string (v : Json) : string :=
  match v with
  | JNull => "null"
  | JBool true => "true"
  | JBool false => "false"
  | JNum n => JSON.number_to_string n
  | JStr s => s
  | JArr xs =>
      JSON.join ","
        (map (fun x => match x with JNull => EmptyString | _ => to_string x end) xs)
  | JObj _ => "[object Object]"
  end.

Definition to_string_opt (v : option Json) : string :=
  match v with
  | Some x => to_string x
  | None => "undefined"
  end.

(** The state of a promise. *)
Inductive Settlement : Type :=
| Pending
| Fulfilled
| Rejected (e : JsError).

(** A result without an event. *)
Definition lift {St A} (r : Result A) : Eff St A := fun s => (s, [], r).

(** A function of the test as a callback of the consumer. *)
Definition as_callback {St A} (f : A -> Eff St unit) : A -> St -> St * Result unit :=
  fun a s => (final_state (f a s), outcome (f a s)).
End JS.

(** ** What the stream tests of client_test.js and client_test.ts share *)

Module StreamTest.
Import JS.

(** [fullContent], the promise the test awaits, and what has gone to
    [process.stdout.write], [console.error] and [console.log]. *)
Record State : Type := mkState {
  fullContent : string;
  streamPromise : Settlement;
  written : list (option Json);
  reported : list (string * JsError);
  logged : list string
}.

Definition initial : State := mkState EmptyString Pending [] [] [].

Definition set_promise (p : Settlement) (st : State) : State :=
  mkState (fullContent st) p (written st) (reported st) (logged st).

(** [resolve()] *)
Definition resolve : Eff State unit :=
  fun st =>
    (match streamPromise st with
     | Pending => set_promise Fulfilled st
     | _ => st
     end, [], Ok tt).

(** [reject(err)] *)
Definition reject (err : JsError) : Eff State unit :=
  fun st =>
    (match streamPromise st with
     | Pending => set_promise (Rejected err) st
     | _ => st
     end, [], Ok tt).

(** [console.error(msg, err)] *)
Definition console_error (msg : string) (err : JsError) : Eff State unit :=
  fun st =>
    (mkState (fullContent st) (streamPromise st) (written st)
       (reported st ++ [(msg, err)]) (logged st),
     [], Ok tt).

(** [console.log(msg)] *)
Definition console_log (msg : string) : Eff State unit :=
  fun st =>
    (mkState (fullContent st) (streamPromise st) (written st) (reported st)
       (logged st ++ [msg]),
     [], Ok tt).

(** [fullContent += x] *)
Definition append_content (x : option Json) : Eff State unit :=
  fun st =>
    (mkState (fullContent st ++ to_string_opt x) (streamPromise st) (written st)
       (reported st) (logged st),
     [], Ok tt).

(** [chunk.choices[0].delta.content] *)
Definition delta_content (chunk : Json) : Result (option Json) :=
  match member (Some chunk) "choices" with
  | Throw e => Throw e
  | Ok choices =>
      match first choices with
      | Throw e => Throw e
      | Ok choice =>
          match member choice "delta" with
          | Throw e => Throw e
          | Ok delta => member delta "content"
          end
      end
  end.

(** [chunk.choices && chunk.choices[0].delta.content], as [if] reads it *)
Definition has_content (chunk : Json) : Result bool :=
  match member (Some chunk) "choices" with
  | Throw e => Throw e
  | Ok choices =>
      if truthy choices
      then match delta_content chunk with
           | Throw e => Throw e
           | Ok content => Ok (truthy content)
           end
      else Ok false
  end.

Section Stdout.
(** [process.stdout.write(x)]: whether it returns or throws on [x]. *)
Variable process_stdout_write : option Json -> Result unit.

Definition write (x : option Json) : Eff State unit :=
  fun st =>
    match process_stdout_write x with
    | Ok _ =>
        (mkState (fullContent st) (streamPromise st) (written st ++ [x]) (reported st)
           (logged st),
         [], Ok tt)
    | Throw e => (st, [], Throw e)
    end.

(** [if (chunk.choices && chunk.choices[0].delta.content) {...}], the
    statement both tests have in their chunk callback *)
Definition take_content (chunk : Json) : Eff State unit :=
  present <- lift (has_content chunk) ;;
  if present
  then
    content <- lift (delta_content chunk) ;;
    append_content content ;;
    content' <- lift (delta_content chunk) ;;
    write content'
  else ret tt.

(** [(err) => { console.error("Stream error:", err); reject(err); }], the
    error callback of both tests *)
Definition on_error (err : JsError) : Eff State unit :=
  console_error "Stream error:" err ;;
  reject err.

(** The exception [take_content] throws on a chunk, if it throws. *)
Definition chunk_failure (chunk : Json) : option JsError :=
  match has_content chunk with
  | Throw e => Some e
  | Ok false => None
  | Ok true =>
      match delta_content chunk with
      | Throw e => Some e
      | Ok content =>
          match process_stdout_write content with
          | Ok _ => None
          | Throw e => Some e
          end
      end
  end.
End Stdout.

(** The text [take_content] adds to [fullContent] for a chunk. *)
Definition delta_text (chunk : Json) : string :=
  match has_content chunk, delta_content chunk with
  | Ok true, Ok content => to_string_opt content
  | _, _ => EmptyString
  end.

(** The text [take_content] adds for a sequence of chunks. *)
Definition text_of (chunks : list Json) : string :=
  fold_right (fun chunk rest => (delta_text chunk ++ rest)%string) EmptyString chunks.

(** A promise settles once. *)
Definition settle (p : Settlement) (v : option Settlement) : Settlement :=
  match p, v with
  | Pending, Some s => s
  | _, _ => p
  end.

(** A non-error invocation with the end signal. *)
Definition is_end_invocation (inv : Invocation) : bool :=
  match inv_err inv with
  | Some _ => false
  | None => SglangClient.is_end_signal (inv_chunk inv)
  end.
End StreamTest.

(** ** The stream consumer of client_test.js (testIntegration) *)

Module ClientTestJs.
Import JS StreamTest.

Section Consumer.
Variable process_stdout_write : option Json -> Result unit.

(** [(chunk) => {...}] *)
Definition on_chunk (chunk : Json) : Eff State unit :=
  match chunk with
  | JNull => resolve
  | _ => take_content process_stdout_write chunk
  end.

Definition consumer : Consumer State :=
  mkConsumer (as_callback on_chunk) (as_callback on_error).

Variable JSON_parse : string -> Result Json.

(** How an invocation settles a pending [streamPromise], if it does. *)
Definition verdict (inv : Invocation) : option Settlement :=
  match inv_err inv with
  | Some e => Some (Rejected e)
  | None =>
      if SglangClient.is_end_signal (inv_chunk inv) then Some Fulfilled
      else
        match JSON_parse (ToString (inv_chunk inv)) with
        | Throw e => Some (Rejected e)
        | Ok JNull => Some Fulfilled
        | Ok chunk =>
            match chunk_failure process_stdout_write chunk with
            | Some e => Some (Rejected e)
            | None => None
            end
        end
  end.
End Consumer.
End ClientTestJs.

(** ** The stream consumer of client_test.ts (testIntegration) *)

Module ClientTestTs.
Import JS StreamTest.

Section Consumer.
Variable process_stdout_write : option Json -> Result unit.

(** [(chunk) => {...}]: there is no test for [null] *)
Definition on_chunk (chunk : Json) : Eff State unit :=
  take_content process_stdout_write chunk.

Definition consumer : Consumer State :=
  mkConsumer (as_callback on_chunk) (as_callback on_error).

(** The callback of [setTimeout(..., 3000)] *)
Definition on_timeout : Eff State unit :=
  console_log (String "010" "  (Stream timeout)") ;;
  fun st =>
    if (0 <? String.length (fullContent st))%nat
    then resolve st
    else reject (Error "No content received") st.

Variable JSON_stringify : Json -> string.
Variable JSON_parse : string -> Result Json.
Variable inner : Native.t.

(** The executor of the promise the test awaits: the stream is started and
    the timer set; the timer fires when the native side has made
    [fired_after] of its invocations. *)
Definition stream_test (request : JsObject) (fired_after : nat) : Eff State unit :=
  let jsonStr := JSON_stringify (JObj request) in
  let script := Native.chatCompletionStream inner jsonStr in
  emit (EvNativeChatCompletionStream jsonStr) ;;
  SglangClient.deliver (SglangClient.stream_callback JSON_parse consumer)
    (firstn fired_after script) ;;
  on_timeout ;;
  SglangClient.deliver (SglangClient.stream_callback JSON_parse consumer)
    (skipn fired_after script).

(** How an invocation settles a pending promise, if it does: the end signal
    does not. *)
Definition verdict (inv : Invocation) : option Settlement :=
  match inv_err inv with
  | Some e => Some (Rejected e)
  | None =>
      if SglangClient.is_end_signal (inv_chunk inv) then None
      else
        match JSON_parse (ToString (inv_chunk inv)) with
        | Throw e => Some (Rejected e)
        | Ok chunk =>
            match chunk_failure process_stdout_write chunk with
            | Some e => Some (Rejected e)
            | None => None
            end
        end
  end.

(** What the timer's callback settles a pending promise with. *)
Definition timeout_verdict (content : string) : Settlement :=
  if (0 <? String.length content)%nat
  then Fulfilled
  else Rejected (Error "No content received").
End Consumer.
End ClientTestTs.

(** ** Runs of the stream tests *)

Module TestRun.
Import Fixture.

(** A [process.stdout.write] that takes strings and throws on anything else. *)
Definition stdout (x : option Json) : Result unit :=
  match x with
  | Some (JStr _) => Ok tt
  | _ => Throw (JS.TypeError "The chunk argument must be of type string")
  end.

(** The stream test of client_test.js on a handle that makes the invocations
    [script]. *)
Definition js (script : list Invocation) :=
  SglangClient.chatCompletionStream JSON.stringify JSON.parse
    (handle (Ok response_payload) script) stream_request
    (ClientTestJs.consumer stdout) StreamTest.initial.

(** The stream test of client_test.ts on such a handle, its timer firing
    after [fired_after] invocations. *)
Definition ts (script : list Invocation) (fired_after : nat) :=
  ClientTestTs.stream_test stdout JSON.stringify JSON.parse
    (handle (Ok response_payload) script) stream_request fired_after StreamTest.initial.

(** [{"choices":[]}] *)
Definition no_choice_payload : string := JSON.stringify (JObj [("choices", JArr [])]).
End TestRun.

(** ** Further observations on a run *)

Definition is_uncaught (ev : Event) : bool :=
  match ev with
  | EvUncaught _ => true
  | _ => false
  end.

(** The texts handed to [JSON.parse], in call order. *)
Fixpoint parse_args (t : list Event) : list string :=
  match t with
  | [] => []
  | EvJsonParse text :: rest => text :: parse_args rest
  | _ :: rest => parse_args rest
  end.

(** The arguments of the [onError] calls, in call order. *)
Fixpoint onError_args (t : list Event) : list JsError :=
  match t with
  | [] => []
  | EvOnError e :: rest => e :: onError_args rest
  | _ :: rest => onError_args rest
  end.

(** What [console.error] was called with, in call order. *)
Fixpoint console_errors (t : list Event) : list (string * JsError) :=
  match t with
  | [] => []
  | EvConsoleError msg e :: rest => (msg, e) :: console_errors rest
  | _ :: rest => console_errors rest
  end.

Section Payloads.
Variable JSON_parse : string -> Result Json.

(** The payload of an invocation that is neither an error nor the end
    signal. *)
Definition data_payload (inv : Invocation) : list string :=
  match inv_err inv with
  | Some _ => []
  | None =>
      if SglangClient.is_end_signal (inv_chunk inv) then []
      else [ToString (inv_chunk inv)]
  end.

(** The error an invocation brings by itself: the transport's, or the one
    [JSON.parse] throws on its payload. *)
Definition brought_error (inv : Invocation) : list JsError :=
  match inv_err inv with
  | Some e => [e]
  | None =>
      if SglangClient.is_end_signal (inv_chunk inv) then []
      else
        match JSON_parse (ToString (inv_chunk inv)) with
        | Ok _ => []
        | Throw e => [e]
        end
  end.

(** The chunk text the generator's callback would parse: a non-error
    invocation with a non-empty string. *)
Definition queued_text (inv : Invocation) : list string :=
  match inv_err inv, inv_chunk inv with
  | None, Some chunk => if String.eqb chunk EmptyString then [] else [chunk]
  | _, _ => []
  end.

(** What the generator's callback appends to its queue for an invocation. *)
Definition queued_value (inv : Invocation) : list Json :=
  match queued_text inv with
  | [chunk] =>
      match JSON_parse chunk with
      | Ok v => [v]
      | Throw _ => []
      end
  | _ => []
  end.

(** What the generator's callback reports on the console for an invocation. *)
Definition queued_failure (inv : Invocation) : list (string * JsError) :=
  match queued_text inv with
  | [chunk] =>
      match JSON_parse chunk with
      | Ok _ => []
      | Throw e => [("Error parsing chunk", e)]
      end
  | _ => []
  end.
End Payloads.

(** The error of the last error invocation, [before] when there is none. *)
Fixpoint last_error (before : option JsError) (invs : list Invocation) : option JsError :=
  match invs with
  | [] => before
  | inv :: rest =>
      last_error (match inv_err inv with Some e => Some e | None => before end) rest
  end.

(** * Properties *)

(** ** Running the effects *)

Ltac unfold_eff :=
  unfold SglangClient.invoke, SglangClient.parse,
    call_onChunk, call_onError, bind, try_catch, ret, throw, emit, perform,
    events, final_state, outcome in *.

Lemma onChunk_args_app (a b : list Event) :
  onChunk_args (a ++ b) = onChunk_args a ++ onChunk_args b.
Proof.
  induction a as [|ev a IH]; [reflexivity|].
  destruct ev; cbn; rewrite ?IH; reflexivity.
Qed.

Lemma terminal_count_app (a b : list Event) :
  terminal_count (a ++ b) = terminal_count a + terminal_count b.
Proof.
  unfold terminal_count. rewrite filter_app, length_app. reflexivity.
Qed.

Lemma consumer_calls_app (a b : list Event) :
  consumer_calls (a ++ b) = consumer_calls a ++ consumer_calls b.
Proof. apply filter_app. Qed.

Section Tokenizer.
Context {St : Type}.
Variable inner : Native.t.

(** C8. [encode] and [decode] hand their argument to the native handle
    once and give back its answer unchanged, a thrown tokenizer error
    included; so on every string for which the handle decodes what it
    encoded, [decode(encode(s))] gives [s] back. *)
Theorem tokenizer_pass_through (supported : string -> Prop) :
  (forall s, supported s ->
     exists ids, Native.tokenizerEncode inner s = Ok ids
                 /\ Native.tokenizerDecode inner ids = Ok s) ->
  (forall text (st : St),
      SglangClient.encode inner text st
      = (st, [EvTokenizerEncode text], Native.tokenizerEncode inner text))
  /\ (forall tokenIds (st : St),
      SglangClient.decode inner tokenIds st
      = (st, [EvTokenizerDecode tokenIds], Native.tokenizerDecode inner tokenIds))
  /\ (forall text e (st : St),
      Native.tokenizerEncode inner text = Throw e ->
      outcome (SglangClient.encode inner text st) = Throw e
      /\ events (SglangClient.encode inner text st) = [EvTokenizerEncode text])
  /\ (forall tokenIds e (st : St),
      Native.tokenizerDecode inner tokenIds = Throw e ->
      outcome (SglangClient.decode inner tokenIds st) = Throw e
      /\ events (SglangClient.decode inner tokenIds st) = [EvTokenizerDecode tokenIds])
  /\ (forall s (st : St), supported s ->
      exists ids,
        (ids <- SglangClient.encode inner s ;; SglangClient.decode inner ids) st
        = (st, [EvTokenizerEncode s; EvTokenizerDecode ids], Ok s)).
Proof.
  intros Hround. split; [|split; [|split; [|split]]].
  - reflexivity.
  - reflexivity.
  - intros text e st He. unfold SglangClient.encode, perform, outcome, events.
    cbn. split; [exact He | reflexivity].
  - intros ids e st He. unfold SglangClient.decode, perform, outcome, events.
    cbn. split; [exact He | reflexivity].
  - intros s st Hs. destruct (Hround s Hs) as (ids & Henc & Hdec).
    exists ids. unfold SglangClient.encode, SglangClient.decode, bind, perform.
    rewrite Henc, Hdec. reflexivity.
Qed.
End Tokenizer.

(** The character tokenizer of the fixtures decodes what it encodes, on
    every string. *)
Lemma char_tokenizer_round_trip (s : string) :
  exists ids, Fixture.char_encode s = Ok ids /\ Fixture.char_decode ids = Ok s.
Proof.
  eexists. split; [reflexivity|]. unfold Fixture.char_decode.
  assert (Hrange : forallb (fun i => (0 <=? i)%Z && (i <? 256)%Z)
                     (map (fun c => Z.of_nat (nat_of_ascii c)) (list_ascii_of_string s))
                   = true).
  { apply forallb_forall. intros i Hi. apply in_map_iff in Hi.
    destruct Hi as (ch & <- & _). pose proof (nat_ascii_bounded ch) as Hb.
    apply andb_true_intro. split; [apply Z.leb_le | apply Z.ltb_lt]; lia. }
  rewrite Hrange, map_map. f_equal.
  rewrite <- (string_of_list_ascii_of_string s) at 2. f_equal.
  rewrite <- (map_id (list_ascii_of_string s)) at 2.
  apply map_ext. intros ch. rewrite Nat2Z.id. apply ascii_nat_embedding.
Qed.

Lemma tokenizer_pass_through_witness :
  exists ids,
    (ids <- SglangClient.encode (Fixture.handle (Ok "{}") []) "Hello world" ;;
     SglangClient.decode (Fixture.handle (Ok "{}") []) ids) tt
    = (tt, [EvTokenizerEncode "Hello world"; EvTokenizerDecode ids], Ok "Hello world").
Proof.
  destruct (tokenizer_pass_through (St := unit) (Fixture.handle (Ok "{}") [])
              (fun _ => True) (fun s _ => char_tokenizer_round_trip s))
    as (_ & _ & _ & _ & H).
  apply H. exact I.
Defined.

(** A tokenizer error comes out of [encode] as the handle threw it. *)
Example encode_propagates_error :
  SglangClient.encode Fixture.broken_tokenizer "Hello" tt
  = (tt, [EvTokenizerEncode "Hello"], Throw (Fixture.TokenizerError "no vocabulary")).
Proof. reflexivity. Qed.

(** ** [chatCompletion] *)

Section ChatCompletion.
Context {St : Type}.
Variable JSON_stringify : Json -> string.
Variable JSON_parse : string -> Result Json.
Variable inner : Native.t.

Let chatCompletion := SglangClient.chatCompletion (St := St) JSON_stringify JSON_parse inner.
Let next := SglangClient.next (St := St) JSON_parse.
Let for_await := SglangClient.for_await (St := St) JSON_parse.

Lemma next_start (st : St) :
  next SuspendedStart st = (Completed, (st, [], Throw unimplemented)).
Proof. reflexivity. Qed.

Lemma next_completed (st : St) :
  next Completed st = (Completed, (st, [], Ok (mkIter None true))).
Proof. reflexivity. Qed.

Lemma for_await_silent (steps : nat) (g : GenState) (st : St) :
  events (for_await steps g st) = [] /\ final_state (for_await steps g st) = st.
Proof.
  destruct steps as [|steps]; [split; reflexivity|].
  destruct g; split; reflexivity.
Qed.

(** C6, as the code has it.  A request whose [stream] is false (or absent)
    is serialized and handed to the unary call once.  When that call has
    settled, the promise of [chatCompletion] is settled in exactly one way:
    rejected with the error of the unary call when that failed, rejected
    with the error of [JSON.parse] when the answer does not parse, and
    otherwise fulfilled with the value [JSON.parse] returns, as it is: any
    JSON value, whatever its shape, and never a stream handle.  [JSON.parse]
    is called only on the answer of a unary call that succeeded. *)
Theorem unary_request_settles_with_parsed_value (request : JsObject) (st : St) :
  truthy (get_prop "stream" request) = false ->
  let jsonStr := JSON_stringify (JObj request) in
  let run := chatCompletion request st in
  final_state run = st
  /\ match Native.chatCompletion inner jsonStr with
     | Throw e =>
         events run = [EvNativeChatCompletion jsonStr] /\ outcome run = Throw e
     | Ok responseStr =>
         events run = [EvNativeChatCompletion jsonStr; EvJsonParse responseStr]
         /\ match JSON_parse responseStr with
            | Ok response => outcome run = Ok (Unary response)
            | Throw e => outcome run = Throw e
            end
     end
  /\ (forall response,
        outcome run = Ok (Unary response)
        <-> exists responseStr,
              Native.chatCompletion inner jsonStr = Ok responseStr
              /\ JSON_parse responseStr = Ok response)
  /\ (forall e,
        outcome run = Throw e
        <-> Native.chatCompletion inner jsonStr = Throw e
            \/ exists responseStr,
                 Native.chatCompletion inner jsonStr = Ok responseStr
                 /\ JSON_parse responseStr = Throw e)
  /\ ((exists response, outcome run = Ok (Unary response))
      \/ (exists e, outcome run = Throw e))
  /\ ~ ((exists response, outcome run = Ok (Unary response))
        /\ (exists e, outcome run = Throw e))
  /\ outcome run <> Ok AsyncIterable.
Proof.
  intros Hstream jsonStr run. subst run chatCompletion.
  unfold SglangClient.chatCompletion. rewrite Hstream. fold jsonStr.
  unfold_eff. cbn.
  destruct (Native.chatCompletion inner jsonStr) as [responseStr|e]; cbn.
  - destruct (JSON_parse responseStr) as [response|e] eqn:Hparse; cbn.
    + split; [reflexivity|]. split; [split; reflexivity|]. split; [|split; [|split; [|split]]].
      * intros v. split.
        -- intros Hv. exists responseStr. split; congruence.
        -- intros (r & Hr & Hv). congruence.
      * intros e. split; [discriminate|].
        intros [Hn | (r & Hr & He)]; [discriminate | congruence].
      * left. eexists. reflexivity.
      * intros [_ [e He]]. discriminate.
      * discriminate.
    + split; [reflexivity|]. split; [split; reflexivity|]. split; [|split; [|split; [|split]]].
      * intros v. split; [discriminate|].
        intros (r & Hr & Hv). congruence.
      * intros e'. split.
        -- intros He. right. exists responseStr. split; congruence.
        -- intros [Hn | (r & Hr & He)]; [discriminate | congruence].
      * right. eexists. reflexivity.
      * intros [[r Hr] _]. discriminate.
      * discriminate.
  - split; [reflexivity|]. split; [split; reflexivity|]. split; [|split; [|split; [|split]]].
    + intros v. split; [discriminate|]. intros (r & Hr & _). discriminate.
    + intros e'. split.
      * intros He. left. congruence.
      * intros [Hn | (r & Hr & _)]; [congruence | discriminate].
    + right. eexists. reflexivity.
    + intros [[r Hr] _]. discriminate.
    + discriminate.
Qed.

(** C9. For a request whose [stream] is true the promise of
    [chatCompletion] is fulfilled, with an object that has
    [Symbol.asyncIterator], and nothing has been called by then; the error
    comes with the first [next()], and neither then nor in any later step
    of the iteration is the native handle called. *)
Theorem stream_request_fails_on_first_next (request : JsObject) (st : St) :
  truthy (get_prop "stream" request) = true ->
  chatCompletion request st = (st, [], Ok AsyncIterable)
  /\ SglangClient.Symbol_asyncIterator AsyncIterable = Some SuspendedStart
  /\ next SuspendedStart st = (Completed, (st, [], Throw unimplemented))
  /\ (forall st', next Completed st' = (Completed, (st', [], Ok (mkIter None true))))
  /\ (forall steps g st', filter is_native_call (events (for_await steps g st')) = []).
Proof.
  intros Hstream. subst chatCompletion.
  unfold SglangClient.chatCompletion. rewrite Hstream.
  repeat split.
  intros steps g st'. destruct (for_await_silent steps g st') as [-> _]. reflexivity.
Qed.

(** C1, as the code has it.  For a request whose [stream] is true,
    [chatCompletion] gives a stream handle and not a response, without
    calling the native handle; iterating the handle gives no chunk and
    ends at the first step with the error "Streaming interface requires
    update to native binding to signal completion." *)
Theorem stream_request_handle_raises (request : JsObject) (st : St) :
  truthy (get_prop "stream" request) = true ->
  exists g,
    outcome (chatCompletion request st) = Ok AsyncIterable
    /\ events (chatCompletion request st) = []
    /\ SglangClient.Symbol_asyncIterator AsyncIterable = Some g
    /\ forall steps st',
         for_await (S steps) g st' = (st', [], ([], LoopThrew unimplemented)).
Proof.
  intros Hstream. exists SuspendedStart. subst chatCompletion.
  unfold SglangClient.chatCompletion. rewrite Hstream.
  repeat split.
Qed.
End ChatCompletion.

Lemma unary_request_settles_with_parsed_value_witness :
  outcome (SglangClient.chatCompletion JSON.stringify JSON.parse
             (Fixture.handle (Ok "null") []) Fixture.unary_request tt)
  = Ok (Unary JNull).
Proof.
  apply (proj1 (proj2 (proj2
           (unary_request_settles_with_parsed_value (St := unit) JSON.stringify JSON.parse
              (Fixture.handle (Ok "null") []) Fixture.unary_request tt eq_refl)))).
  exists "null". split; reflexivity.
Defined.

(** C6 fails on the code: the answers [null], [5] and [{}] of the unary
    call are valid JSON and no UnaryResponse, and [chatCompletion] is
    fulfilled with each of them: neither a UnaryResponse nor an error comes
    out. *)
Lemma unary_value_unvalidated_counterexample :
  truthy (get_prop "stream" Fixture.unary_request) = false
  /\ SglangClient.chatCompletion JSON.stringify JSON.parse
       (Fixture.handle (Ok "null") []) Fixture.unary_request tt
     = (tt,
        [EvNativeChatCompletion (JSON.stringify (JObj Fixture.unary_request));
         EvJsonParse "null"],
        Ok (Unary JNull))
  /\ Shape.is_UnaryResponse JNull = false
  /\ outcome (SglangClient.chatCompletion JSON.stringify JSON.parse
                (Fixture.handle (Ok "5") []) Fixture.unary_request tt)
     = Ok (Unary (JNum 5))
  /\ Shape.is_UnaryResponse (JNum 5) = false
  /\ outcome (SglangClient.chatCompletion JSON.stringify JSON.parse
                (Fixture.handle (Ok "{}") []) Fixture.plain_request tt)
     = Ok (Unary (JObj []))
  /\ Shape.is_UnaryResponse (JObj []) = false.
Proof. repeat split; vm_compute; reflexivity. Qed.

Lemma stream_request_fails_on_first_next_witness :
  SglangClient.chatCompletion JSON.stringify JSON.parse
    (Fixture.handle (Ok Fixture.response_payload) [Fixture.end_signal])
    Fixture.stream_request tt
  = (tt, [], Ok AsyncIterable).
Proof.
  apply (stream_request_fails_on_first_next (St := unit) JSON.stringify JSON.parse
           (Fixture.handle (Ok Fixture.response_payload) [Fixture.end_signal])
           Fixture.stream_request tt).
  reflexivity.
Defined.

Lemma stream_request_handle_raises_witness :
  exists g,
    SglangClient.Symbol_asyncIterator AsyncIterable = Some g
    /\ SglangClient.for_await JSON.parse 1 g tt = (tt, [], ([], LoopThrew unimplemented)).
Proof.
  destruct (stream_request_handle_raises (St := unit) JSON.stringify JSON.parse
              (Fixture.handle (Ok Fixture.response_payload) [Fixture.end_signal])
              Fixture.stream_request tt eq_refl) as (g & _ & _ & Hg & Hloop).
  exists g. split; [exact Hg | apply Hloop].
Defined.

(** C1 fails on the code: the handle [chatCompletion] gives for
    [{model:"m", messages:[{role:"user",content:"Hi"}], stream:true}] raises
    as soon as it is iterated, it yields no chunk, and the native streaming
    call was never made although the handle had two chunks and an end signal
    to deliver. *)
Lemma stream_request_handle_counterexample :
  let inner := Fixture.handle (Ok Fixture.response_payload)
                 [Fixture.fragment (Fixture.chunk_payload "He");
                  Fixture.fragment (Fixture.chunk_payload "llo");
                  Fixture.end_signal] in
  truthy (get_prop "stream" Fixture.stream_request) = true
  /\ SglangClient.chatCompletion JSON.stringify JSON.parse inner Fixture.stream_request tt
     = (tt, [], Ok AsyncIterable)
  /\ SglangClient.Symbol_asyncIterator AsyncIterable = Some SuspendedStart
  /\ SglangClient.for_await JSON.parse 5 SuspendedStart tt
     = (tt, [], ([], LoopThrew unimplemented)).
Proof. repeat split. Qed.

(** The three settlements of a unary call. *)
Example unary_fulfilled :
  outcome (SglangClient.chatCompletion JSON.stringify JSON.parse
             (Fixture.handle (Ok Fixture.id_only_payload) []) Fixture.plain_request tt)
  = Ok (Unary (JObj [("id", JStr "r1")])).
Proof. reflexivity. Qed.

Example unary_transport_failure :
  outcome (SglangClient.chatCompletion JSON.stringify JSON.parse
             (Fixture.handle (Throw Fixture.transport_down) []) Fixture.unary_request tt)
  = Throw Fixture.transport_down.
Proof. reflexivity. Qed.

Example unary_parse_failure :
  outcome (SglangClient.chatCompletion JSON.stringify JSON.parse
             (Fixture.handle (Ok "<html>") []) Fixture.unary_request tt)
  = Throw (JSON.SyntaxError "Unexpected token in JSON").
Proof. reflexivity. Qed.

(** ** [chatCompletionStream] *)

Section Stream.
Context {St : Type}.
Variable JSON_stringify : Json -> string.
Variable JSON_parse : string -> Result Json.
Variable inner : Native.t.
Variable c : Consumer St.

Let callback := SglangClient.stream_callback JSON_parse c.
Let invoke := SglangClient.invoke callback.
Let deliver := SglangClient.deliver callback.
Let chatCompletionStream :=
  SglangClient.chatCompletionStream (St := St) JSON_stringify JSON_parse inner.

Lemma invoke_returns (inv : Invocation) (st : St) :
  outcome (invoke inv st) = Ok tt.
Proof.
  subst invoke. unfold SglangClient.invoke, try_catch, emit, outcome.
  destruct (callback inv st) as [[s1 t1] [[]|e]]; reflexivity.
Qed.

Lemma deliver_cons (inv : Invocation) (rest : list Invocation) (st : St) :
  deliver (inv :: rest) st
  = (final_state (deliver rest (final_state (invoke inv st))),
     events (invoke inv st) ++ events (deliver rest (final_state (invoke inv st))),
     outcome (deliver rest (final_state (invoke inv st)))).
Proof.
  subst deliver. cbn [SglangClient.deliver]. fold invoke. unfold bind.
  pose proof (invoke_returns inv st) as Hret.
  destruct (invoke inv st) as [[s1 t1] r1]. cbn in Hret. subst r1.
  unfold final_state, events, outcome. cbn.
  destruct (SglangClient.deliver callback rest s1) as [[s2 t2] r2]. reflexivity.
Qed.

Lemma deliver_returns (invs : list Invocation) (st : St) :
  outcome (deliver invs st) = Ok tt.
Proof.
  revert st. induction invs as [|inv rest IH]; intros st; [reflexivity|].
  rewrite deliver_cons. cbn. apply IH.
Qed.

(** Delivery has no memory: what a later part of the invocations does
    depends on the earlier part only through the consumer's own state. *)
Lemma deliver_app (pre post : list Invocation) (st : St) :
  deliver (pre ++ post) st
  = (final_state (deliver post (final_state (deliver pre st))),
     events (deliver pre st) ++ events (deliver post (final_state (deliver pre st))),
     Ok tt).
Proof.
  revert st. induction pre as [|inv pre IH]; intros st.
  - cbn [app]. change (final_state (deliver [] st)) with st.
    change (events (deliver [] st)) with (@nil Event).
    pose proof (deliver_returns post st) as Hret.
    destruct (deliver post st) as [[s t] r]. cbn in Hret. subst r. reflexivity.
  - rewrite <- app_comm_cons, !deliver_cons, IH. cbn.
    rewrite app_assoc. reflexivity.
Qed.

Lemma chatCompletionStream_run (request : JsObject) (st : St) :
  let jsonStr := JSON_stringify (JObj request) in
  chatCompletionStream request c st
  = (final_state (deliver (Native.chatCompletionStream inner jsonStr) st),
     EvNativeChatCompletionStream jsonStr
       :: events (deliver (Native.chatCompletionStream inner jsonStr) st),
     Ok tt).
Proof.
  intros jsonStr. subst chatCompletionStream.
  unfold SglangClient.chatCompletionStream. fold jsonStr. fold callback. fold deliver.
  unfold bind, emit.
  pose proof (deliver_returns (Native.chatCompletionStream inner jsonStr) st) as Hret.
  destruct (deliver (Native.chatCompletionStream inner jsonStr) st) as [[s t] r].
  cbn in Hret. subst r. reflexivity.
Qed.

(** What one invocation makes the callback do, case by case. *)
Lemma invoke_error (e : JsError) (chunkStr : option string) (st : St) :
  invoke (mkInvocation (Some e) chunkStr) st
  = match onError c e st with
    | (st', Ok _) => (st', [EvOnError e], Ok tt)
    | (st', Throw e') => (st', [EvOnError e; EvUncaught e'], Ok tt)
    end.
Proof.
  subst invoke callback. unfold SglangClient.invoke, SglangClient.stream_callback.
  unfold_eff. cbn.
  destruct (onError c e st) as [st' [[]|e']]; reflexivity.
Qed.

Lemma invoke_end_signal (inv : Invocation) (st : St) :
  inv_err inv = None ->
  SglangClient.is_end_signal (inv_chunk inv) = true ->
  invoke inv st
  = match onChunk c JNull st with
    | (st', Ok _) => (st', [EvOnChunk JNull], Ok tt)
    | (st', Throw e') => (st', [EvOnChunk JNull; EvUncaught e'], Ok tt)
    end.
Proof.
  intros Herr Hend.
  subst invoke callback. unfold SglangClient.invoke, SglangClient.stream_callback.
  rewrite Herr, Hend. unfold_eff.
  destruct (onChunk c JNull st) as [st' [[]|e']]; reflexivity.
Qed.

Lemma invoke_unparsable (inv : Invocation) (e : JsError) (st : St) :
  inv_err inv = None ->
  SglangClient.is_end_signal (inv_chunk inv) = false ->
  JSON_parse (ToString (inv_chunk inv)) = Throw e ->
  invoke inv st
  = match onError c e st with
    | (st', Ok _) => (st', [EvJsonParse (ToString (inv_chunk inv)); EvOnError e], Ok tt)
    | (st', Throw e') =>
        (st', [EvJsonParse (ToString (inv_chunk inv)); EvOnError e; EvUncaught e'], Ok tt)
    end.
Proof.
  intros Herr Hend Hparse.
  subst invoke callback. unfold SglangClient.invoke, SglangClient.stream_callback.
  rewrite Herr, Hend. unfold_eff. rewrite Hparse. cbn.
  destruct (onError c e st) as [st' [[]|e']]; reflexivity.
Qed.

Lemma invoke_chunk (inv : Invocation) (chunk : Json) (st : St) :
  inv_err inv = None ->
  SglangClient.is_end_signal (inv_chunk inv) = false ->
  JSON_parse (ToString (inv_chunk inv)) = Ok chunk ->
  invoke inv st
  = match onChunk c chunk st with
    | (st1, Ok _) =>
        (st1, [EvJsonParse (ToString (inv_chunk inv)); EvOnChunk chunk], Ok tt)
    | (st1, Throw e) =>
        match onError c e st1 with
        | (st2, Ok _) =>
            (st2, [EvJsonParse (ToString (inv_chunk inv)); EvOnChunk chunk; EvOnError e],
             Ok tt)
        | (st2, Throw e') =>
            (st2, [EvJsonParse (ToString (inv_chunk inv)); EvOnChunk chunk; EvOnError e;
                   EvUncaught e'], Ok tt)
        end
    end.
Proof.
  intros Herr Hend Hparse.
  subst invoke callback. unfold SglangClient.invoke, SglangClient.stream_callback.
  rewrite Herr, Hend. unfold_eff. rewrite Hparse. cbn.
  destruct (onChunk c chunk st) as [st1 [[]|e]]; cbn; [reflexivity|].
  destruct (onError c e st1) as [st2 [[]|e']]; reflexivity.
Qed.

(** The four cases cover every invocation. *)
Lemma invocation_cases (inv : Invocation) :
  (exists e, inv_err inv = Some e)
  \/ (inv_err inv = None /\ SglangClient.is_end_signal (inv_chunk inv) = true)
  \/ (inv_err inv = None /\ SglangClient.is_end_signal (inv_chunk inv) = false
      /\ exists e, JSON_parse (ToString (inv_chunk inv)) = Throw e)
  \/ (inv_err inv = None /\ SglangClient.is_end_signal (inv_chunk inv) = false
      /\ exists chunk, JSON_parse (ToString (inv_chunk inv)) = Ok chunk).
Proof.
  destruct (inv_err inv) as [e|]; [left; eauto|right].
  destruct (SglangClient.is_end_signal (inv_chunk inv)); [left; auto|right].
  destruct (JSON_parse (ToString (inv_chunk inv))) as [chunk|e]; [right|left]; eauto.
Qed.

Lemma onChunk_args_invoke (inv : Invocation) (st : St) :
  onChunk_args (events (invoke inv st)) = carried_value JSON_parse inv.
Proof.
  unfold carried_value.
  destruct (invocation_cases inv)
    as [[e He] | [[He Hend] | [(He & Hend & e & Hp) | (He & Hend & v & Hp)]]].
  - destruct inv as [err chunkStr]. cbn in He. subst err. rewrite invoke_error. cbn.
    destruct (onError c e st) as [st' [[]|e']]; reflexivity.
  - rewrite (invoke_end_signal inv st He Hend), He, Hend.
    destruct (onChunk c JNull st) as [st' [[]|e']]; reflexivity.
  - rewrite (invoke_unparsable inv e st He Hend Hp), He, Hend, Hp.
    destruct (onError c e st) as [st' [[]|e']]; reflexivity.
  - rewrite (invoke_chunk inv v st He Hend Hp), He, Hend, Hp.
    destruct (onChunk c v st) as [st1 [[]|e]]; [reflexivity|].
    destruct (onError c e st1) as [st2 [[]|e']]; reflexivity.
Qed.

Lemma onChunk_args_deliver (invs : list Invocation) (st : St) :
  onChunk_args (events (deliver invs st)) = carried JSON_parse invs.
Proof.
  revert st. induction invs as [|inv rest IH]; intros st; [reflexivity|].
  rewrite deliver_cons. cbn [events fst snd].
  rewrite onChunk_args_app, onChunk_args_invoke, IH. reflexivity.
Qed.

(** Every invocation reaches the consumer: none is swallowed. *)
Lemma invoke_calls_consumer (inv : Invocation) (st : St) :
  consumer_calls (events (invoke inv st)) <> [].
Proof.
  destruct (invocation_cases inv)
    as [[e He] | [[He Hend] | [(He & Hend & e & Hp) | (He & Hend & v & Hp)]]].
  - destruct inv as [err chunkStr]. cbn in He. subst err. rewrite invoke_error.
    destruct (onError c e st) as [st' [[]|e']]; discriminate.
  - rewrite (invoke_end_signal inv st He Hend).
    destruct (onChunk c JNull st) as [st' [[]|e']]; discriminate.
  - rewrite (invoke_unparsable inv e st He Hend Hp).
    destruct (onError c e st) as [st' [[]|e']]; discriminate.
  - rewrite (invoke_chunk inv v st He Hend Hp).
    destruct (onChunk c v st) as [st1 [[]|e]]; [discriminate|].
    destruct (onError c e st1) as [st2 [[]|e']]; discriminate.
Qed.
Lemma terminal_count_invoke (inv : Invocation) (st : St) :
  (forall chunk s, snd (onChunk c chunk s) = Ok tt) ->
  terminal_count (events (invoke inv st))
  = if ends_stream JSON_parse inv then 1 else 0.
Proof.
  intros Hquiet. unfold ends_stream.
  destruct (invocation_cases inv)
    as [[e He] | [[He Hend] | [(He & Hend & e & Hp) | (He & Hend & v & Hp)]]].
  - destruct inv as [err chunkStr]. cbn in He. subst err. rewrite invoke_error. cbn.
    destruct (onError c e st) as [st' [[]|e']]; reflexivity.
  - rewrite (invoke_end_signal inv st He Hend), He, Hend.
    destruct (onChunk c JNull st) as [st' [[]|e']]; reflexivity.
  - rewrite (invoke_unparsable inv e st He Hend Hp), He, Hend, Hp.
    destruct (onError c e st) as [st' [[]|e']]; reflexivity.
  - rewrite (invoke_chunk inv v st He Hend Hp), He, Hend, Hp.
    specialize (Hquiet v st).
    destruct (onChunk c v st) as [st1 r]. cbn in Hquiet. subst r.
    destruct v; reflexivity.
Qed.

Lemma terminal_count_deliver (invs : list Invocation) (st : St) :
  (forall chunk s, snd (onChunk c chunk s) = Ok tt) ->
  terminal_count (events (deliver invs st))
  = length (filter (ends_stream JSON_parse) invs).
Proof.
  intros Hquiet. revert st.
  induction invs as [|inv rest IH]; intros st; [reflexivity|].
  rewrite deliver_cons. cbn [events fst snd].
  rewrite terminal_count_app, terminal_count_invoke, IH by assumption.
  cbn [filter]. destruct (ends_stream JSON_parse inv); reflexivity.
Qed.

Lemma terminal_count_invoke_ge (inv : Invocation) (st : St) :
  (if ends_stream JSON_parse inv then 1 else 0) <= terminal_count (events (invoke inv st)).
Proof.
  unfold ends_stream.
  destruct (invocation_cases inv)
    as [[e He] | [[He Hend] | [(He & Hend & e & Hp) | (He & Hend & v & Hp)]]].
  - destruct inv as [err chunkStr]. cbn in He. subst err. rewrite invoke_error. cbn.
    destruct (onError c e st) as [st' [[]|e']]; cbn; lia.
  - rewrite (invoke_end_signal inv st He Hend), He, Hend.
    destruct (onChunk c JNull st) as [st' [[]|e']]; cbn; lia.
  - rewrite (invoke_unparsable inv e st He Hend Hp), He, Hend, Hp.
    destruct (onError c e st) as [st' [[]|e']]; cbn; lia.
  - rewrite (invoke_chunk inv v st He Hend Hp), He, Hend, Hp.
    destruct (onChunk c v st) as [st1 [[]|e]].
    + destruct v; cbn; lia.
    + destruct (onError c e st1) as [st2 [[]|e']]; destruct v; cbn; lia.
Qed.

Lemma terminal_count_deliver_ge (invs : list Invocation) (st : St) :
  length (filter (ends_stream JSON_parse) invs) <= terminal_count (events (deliver invs st)).
Proof.
  revert st. induction invs as [|inv rest IH]; intros st; [cbn; lia|].
  rewrite deliver_cons. cbn [events fst snd].
  rewrite terminal_count_app.
  pose proof (terminal_count_invoke_ge inv st) as Hinv.
  specialize (IH (final_state (invoke inv st))).
  cbn [filter]. destruct (ends_stream JSON_parse inv); cbn [length]; lia.
Qed.

(** C3. The chunks [onChunk] is called with are, in the same order and one
    for one, the values the non-error invocations of the transport carry;
    and whatever an invocation makes the callback do, the end signal and
    [onError] included, comes after everything the invocations before it
    delivered. *)
Theorem chunks_delivered_in_transport_order (request : JsObject) (st : St) :
  let invs := Native.chatCompletionStream inner (JSON_stringify (JObj request)) in
  let run := chatCompletionStream request c st in
  onChunk_args (events run) = carried JSON_parse invs
  /\ forall pre inv post,
       invs = pre ++ inv :: post ->
       exists before after,
         events run
         = before ++ events (invoke inv (final_state (deliver pre st))) ++ after
         /\ onChunk_args before = carried JSON_parse pre
         /\ onChunk_args after = carried JSON_parse post.
Proof.
  intros invs run. subst run. rewrite chatCompletionStream_run. fold invs.
  cbn [events fst snd]. split.
  - cbn [onChunk_args]. apply onChunk_args_deliver.
  - intros pre inv post Hsplit. rewrite Hsplit.
    rewrite deliver_app, deliver_cons. cbn [events fst snd final_state].
    exists (EvNativeChatCompletionStream (JSON_stringify (JObj request))
              :: events (deliver pre st)).
    eexists. split; [reflexivity|]. split.
    + cbn [onChunk_args]. apply onChunk_args_deliver.
    + apply onChunk_args_deliver.
Qed.

(** C4. A non-error invocation whose payload is ["null"] or [null] makes
    the callback call [onChunk(null)] and nothing else: the payload is not
    given to [JSON.parse], whatever [JSON.parse] would say of it, and the
    call is made in the invocation itself, with no later event awaited. *)
Theorem end_signal_calls_onChunk_null (inv : Invocation) (st : St) :
  inv_err inv = None ->
  inv_chunk inv = Some "null" \/ inv_chunk inv = None ->
  callback inv st = call_onChunk c JNull st
  /\ consumer_calls (events (invoke inv st)) = [EvOnChunk JNull]
  /\ filter is_parse_call (events (invoke inv st)) = []
  /\ forall other_parse,
       SglangClient.stream_callback other_parse c inv st = callback inv st.
Proof.
  intros Herr Hpayload.
  assert (Hend : SglangClient.is_end_signal (inv_chunk inv) = true)
    by (destruct Hpayload as [-> | ->]; reflexivity).
  split; [|split; [|split]].
  - subst callback. unfold SglangClient.stream_callback. rewrite Herr, Hend. reflexivity.
  - rewrite (invoke_end_signal inv st Herr Hend).
    destruct (onChunk c JNull st) as [st' [[]|e']]; reflexivity.
  - rewrite (invoke_end_signal inv st Herr Hend).
    destruct (onChunk c JNull st) as [st' [[]|e']]; reflexivity.
  - intros other_parse. subst callback. unfold SglangClient.stream_callback.
    rewrite Herr, Hend. reflexivity.
Qed.

Lemma callback_null_string (inv : Invocation) (st : St) :
  callback (null_string_as_null inv) st = callback inv st.
Proof.
  subst callback. unfold null_string_as_null, SglangClient.stream_callback.
  destruct inv as [[e|] [s|]]; cbn; try reflexivity.
  destruct (String.eqb s "null") eqn:Hs; cbn; [|rewrite Hs]; reflexivity.
Qed.

Lemma deliver_null_string (invs : list Invocation) (st : St) :
  deliver (map null_string_as_null invs) st = deliver invs st.
Proof.
  revert st. induction invs as [|inv rest IH]; intros st; [reflexivity|].
  cbn [map]. rewrite !deliver_cons.
  assert (Hinv : invoke (null_string_as_null inv) st = invoke inv st).
  { subst invoke. unfold SglangClient.invoke, try_catch.
    rewrite callback_null_string. reflexivity. }
  rewrite Hinv, IH. reflexivity.
Qed.

(** C10. The end signal travels in the payload: a non-error invocation
    whose payload is the string ["null"] is handled as the invocation with
    payload [null] is, by [onChunk(null)] and no other [onChunk] call, even
    where [JSON.parse] would make a chunk of ["null"]; and a stream in which
    ["null"] payloads stand for chunks runs exactly as the stream in which
    they are end signals. *)
Theorem null_payload_is_end_of_stream (request : JsObject) (st : St) :
  (forall st', callback (mkInvocation None (Some "null")) st'
               = callback (mkInvocation None None) st')
  /\ (forall st', onChunk_args (events (invoke (mkInvocation None (Some "null")) st'))
                  = [JNull])
  /\ (forall st', filter is_parse_call
                    (events (invoke (mkInvocation None (Some "null")) st')) = [])
  /\ forall inner',
       Native.chatCompletionStream inner' (JSON_stringify (JObj request))
       = map null_string_as_null
           (Native.chatCompletionStream inner (JSON_stringify (JObj request))) ->
       SglangClient.chatCompletionStream JSON_stringify JSON_parse inner' request c st
       = chatCompletionStream request c st.
Proof.
  split; [|split; [|split]].
  - reflexivity.
  - intros st'. rewrite onChunk_args_invoke. reflexivity.
  - intros st'.
    rewrite (invoke_end_signal (mkInvocation None (Some "null")) st' eq_refl eq_refl).
    destruct (onChunk c JNull st') as [st2 [[]|e']]; reflexivity.
  - intros inner' Hscript. subst chatCompletionStream.
    unfold SglangClient.chatCompletionStream. rewrite Hscript.
    change (SglangClient.deliver (SglangClient.stream_callback JSON_parse c)) with deliver.
    unfold bind, emit. cbv beta iota. rewrite deliver_null_string. reflexivity.
Qed.

(** C2, as the code has it.  The callback keeps no record of the stream:
    the consumer gets a terminal event for each invocation that carries an
    error, the end signal, or a payload that does not parse or parses to
    [null], and exactly one for each when its [onChunk] returns normally; so
    it gets none when the transport makes no such invocation and several
    when the transport makes several. *)
Theorem terminal_events_one_per_ending_invocation (request : JsObject) (st : St) :
  let invs := Native.chatCompletionStream inner (JSON_stringify (JObj request)) in
  let run := chatCompletionStream request c st in
  length (filter (ends_stream JSON_parse) invs) <= terminal_count (events run)
  /\ ((forall chunk s, snd (onChunk c chunk s) = Ok tt) ->
      terminal_count (events run) = length (filter (ends_stream JSON_parse) invs)).
Proof.
  intros invs run. subst run. rewrite chatCompletionStream_run. fold invs.
  cbn [events fst snd].
  change (EvNativeChatCompletionStream (JSON_stringify (JObj request)) :: ?t)
    with ([EvNativeChatCompletionStream (JSON_stringify (JObj request))] ++ t).
  rewrite terminal_count_app.
  change (terminal_count [EvNativeChatCompletionStream (JSON_stringify (JObj request))])
    with 0.
  cbn [Nat.add]. split.
  - apply terminal_count_deliver_ge.
  - intros Hquiet. apply terminal_count_deliver. exact Hquiet.
Qed.

(** C5, as the code has it.  No terminal state is kept: the invocations
    that come after any point of the stream, after a terminal event too,
    are delivered as a stream of their own would be from the consumer's
    state at that point, and each of them reaches the consumer through
    [onChunk] or [onError]. *)
Theorem late_invocations_are_delivered (request : JsObject) (st : St)
    (pre late : list Invocation) :
  Native.chatCompletionStream inner (JSON_stringify (JObj request)) = pre ++ late ->
  let run := chatCompletionStream request c st in
  let st1 := final_state (deliver pre st) in
  events run
  = EvNativeChatCompletionStream (JSON_stringify (JObj request))
      :: events (deliver pre st) ++ events (deliver late st1)
  /\ final_state run = final_state (deliver late st1)
  /\ forall inv st', consumer_calls (events (invoke inv st')) <> [].
Proof.
  intros Hsplit run st1. subst run. rewrite chatCompletionStream_run, Hsplit.
  rewrite deliver_app. cbn [events final_state fst snd]. fold st1.
  repeat split. intros inv st'. apply invoke_calls_consumer.
Qed.

(** C7, as the code has it.  The request is serialized and handed on
    without a failure of the client's own; the answer of a unary call and
    the payload of a chunk are deserialized by [JSON.parse] alone: the
    call fails exactly when [JSON.parse] throws, with the error it throws,
    and any value it returns is passed on as it is, whatever fields it has. *)
Theorem deserialization_is_JSON_parse (request : JsObject) (st : St) :
  let jsonStr := JSON_stringify (JObj request) in
  (exists evs, events (chatCompletionStream request c st)
               = EvNativeChatCompletionStream jsonStr :: evs
               /\ outcome (chatCompletionStream request c st) = Ok tt)
  /\ (truthy (get_prop "stream" request) = false ->
      exists evs,
        events (SglangClient.chatCompletion JSON_stringify JSON_parse inner request st)
        = EvNativeChatCompletion jsonStr :: evs)
  /\ (forall responseStr,
        truthy (get_prop "stream" request) = false ->
        Native.chatCompletion inner jsonStr = Ok responseStr ->
        let run := SglangClient.chatCompletion JSON_stringify JSON_parse inner request st in
        (forall response, JSON_parse responseStr = Ok response <->
                          outcome run = Ok (Unary response))
        /\ (forall e, JSON_parse responseStr = Throw e <-> outcome run = Throw e))
  /\ (forall inv st',
        inv_err inv = None ->
        SglangClient.is_end_signal (inv_chunk inv) = false ->
        (forall chunk, JSON_parse (ToString (inv_chunk inv)) = Ok chunk ->
                       onChunk_args (events (invoke inv st')) = [chunk])
        /\ (forall e, JSON_parse (ToString (inv_chunk inv)) = Throw e ->
                      consumer_calls (events (invoke inv st')) = [EvOnError e])).
Proof.
  intros jsonStr. split; [|split; [|split]].
  - rewrite chatCompletionStream_run. fold jsonStr. eexists. split; reflexivity.
  - intros Hstream. unfold SglangClient.chatCompletion. rewrite Hstream. fold jsonStr.
    unfold_eff.
    destruct (Native.chatCompletion inner jsonStr) as [responseStr|e]; cbn;
      [destruct (JSON_parse responseStr); cbn|]; eexists; reflexivity.
  - intros responseStr Hstream Hnative run. subst run.
    unfold SglangClient.chatCompletion. rewrite Hstream. fold jsonStr.
    unfold_eff. rewrite Hnative. cbn.
    destruct (JSON_parse responseStr) as [v|e']; cbn; split; intros x; split;
      intros H; congruence.
  - intros inv st' Herr Hend. split.
    + intros chunk Hp. rewrite onChunk_args_invoke. unfold carried_value.
      rewrite Herr, Hend, Hp. reflexivity.
    + intros e Hp. rewrite (invoke_unparsable inv e st' Herr Hend Hp).
      destruct (onError c e st') as [st2 [[]|e']]; reflexivity.
Qed.
End Stream.

(** ** Runs of [chatCompletionStream] *)

(** The transport sends "He", "llo" and the end signal: the consumer gets
    the two chunks in that order, then [null]. *)
Example stream_He_llo :
  Run.stream [Fixture.fragment (Fixture.chunk_payload "He");
              Fixture.fragment (Fixture.chunk_payload "llo");
              Fixture.end_signal]
  = (([Run.chunk "He"; Run.chunk "llo"; JNull], []),
     [Run.sent;
      EvJsonParse (Fixture.chunk_payload "He"); EvOnChunk (Run.chunk "He");
      EvJsonParse (Fixture.chunk_payload "llo"); EvOnChunk (Run.chunk "llo");
      EvOnChunk JNull],
     Ok tt).
Proof. vm_compute. reflexivity. Qed.

(** The transport sends no chunk and one error: one [onError], no [onChunk]. *)
Example stream_error_only :
  Run.stream [Fixture.failure Fixture.transport_down]
  = (([], [Fixture.transport_down]),
     [Run.sent; EvOnError Fixture.transport_down],
     Ok tt).
Proof. vm_compute. reflexivity. Qed.

(** A chunk whose [onChunk] throws is reported to [onError] as well. *)
Example stream_onChunk_throws :
  events (SglangClient.chatCompletionStream JSON.stringify JSON.parse
            (Fixture.handle (Ok "{}") [Fixture.fragment "{}"; Fixture.end_signal])
            Fixture.stream_request Fixture.fussy tt)
  = [Run.sent; EvJsonParse "{}"; EvOnChunk (JObj []);
     EvOnError (Error "cannot handle chunk"); EvOnChunk JNull].
Proof. vm_compute. reflexivity. Qed.

(** ["null"] is JSON for [null], and [null] serializes to it. *)
Example null_literal :
  JSON.parse "null" = Ok JNull /\ JSON.stringify JNull = "null".
Proof. split; reflexivity. Qed.

Lemma chunks_delivered_in_transport_order_witness :
  exists before after,
    events (Run.stream [Fixture.fragment (Fixture.chunk_payload "He");
                        Fixture.fragment (Fixture.chunk_payload "llo");
                        Fixture.end_signal])
    = before
        ++ events (SglangClient.invoke
                     (SglangClient.stream_callback JSON.parse Fixture.keeper)
                     Fixture.end_signal
                     (final_state
                        (SglangClient.deliver
                           (SglangClient.stream_callback JSON.parse Fixture.keeper)
                           [Fixture.fragment (Fixture.chunk_payload "He");
                            Fixture.fragment (Fixture.chunk_payload "llo")]
                           ([], []))))
        ++ after
    /\ onChunk_args before
       = carried JSON.parse [Fixture.fragment (Fixture.chunk_payload "He");
                             Fixture.fragment (Fixture.chunk_payload "llo")]
    /\ onChunk_args after = carried JSON.parse [].
Proof.
  apply (proj2 (chunks_delivered_in_transport_order JSON.stringify JSON.parse
                  (Fixture.handle (Ok Fixture.response_payload)
                     [Fixture.fragment (Fixture.chunk_payload "He");
                      Fixture.fragment (Fixture.chunk_payload "llo");
                      Fixture.end_signal])
                  Fixture.keeper Fixture.stream_request ([], []))).
  reflexivity.
Defined.

Lemma end_signal_calls_onChunk_null_witness :
  consumer_calls
    (events (SglangClient.invoke (SglangClient.stream_callback JSON.parse Fixture.keeper)
               (Fixture.fragment "null") ([], [])))
  = [EvOnChunk JNull].
Proof.
  apply (end_signal_calls_onChunk_null JSON.parse Fixture.keeper
           (Fixture.fragment "null") ([], [])).
  - reflexivity.
  - left. reflexivity.
Defined.

Lemma null_payload_is_end_of_stream_witness :
  Run.stream [Fixture.fragment (Fixture.chunk_payload "He"); Fixture.end_signal;
              Fixture.fragment (Fixture.chunk_payload "llo")]
  = Run.stream [Fixture.fragment (Fixture.chunk_payload "He"); Fixture.fragment "null";
                Fixture.fragment (Fixture.chunk_payload "llo")].
Proof.
  apply (proj2 (proj2 (proj2
           (null_payload_is_end_of_stream JSON.stringify JSON.parse
              (Fixture.handle (Ok Fixture.response_payload)
                 [Fixture.fragment (Fixture.chunk_payload "He"); Fixture.fragment "null";
                  Fixture.fragment (Fixture.chunk_payload "llo")])
              Fixture.keeper Fixture.stream_request ([], []))))).
  reflexivity.
Defined.

Lemma terminal_events_one_per_ending_invocation_witness :
  terminal_count
    (events (Run.stream [Fixture.fragment (Fixture.chunk_payload "He");
                         Fixture.fragment "oops";
                         Fixture.end_signal;
                         Fixture.failure Fixture.transport_down]))
  = 3.
Proof.
  unfold Run.stream.
  rewrite (proj2 (terminal_events_one_per_ending_invocation JSON.stringify JSON.parse
                    (Fixture.handle (Ok Fixture.response_payload)
                       [Fixture.fragment (Fixture.chunk_payload "He");
                        Fixture.fragment "oops";
                        Fixture.end_signal;
                        Fixture.failure Fixture.transport_down])
                    Fixture.keeper Fixture.stream_request ([], []))).
  - reflexivity.
  - intros chunk s. reflexivity.
Defined.

Lemma late_invocations_are_delivered_witness :
  events (Run.stream [Fixture.end_signal; Fixture.fragment (Fixture.chunk_payload "late")])
  = Run.sent
      :: events (SglangClient.deliver
                   (SglangClient.stream_callback JSON.parse Fixture.keeper)
                   [Fixture.end_signal] ([], []))
      ++ events (SglangClient.deliver
                   (SglangClient.stream_callback JSON.parse Fixture.keeper)
                   [Fixture.fragment (Fixture.chunk_payload "late")]
                   (final_state
                      (SglangClient.deliver
                         (SglangClient.stream_callback JSON.parse Fixture.keeper)
                         [Fixture.end_signal] ([], [])))).
Proof.
  apply (late_invocations_are_delivered JSON.stringify JSON.parse
           (Fixture.handle (Ok Fixture.response_payload)
              [Fixture.end_signal; Fixture.fragment (Fixture.chunk_payload "late")])
           Fixture.keeper Fixture.stream_request ([], [])
           [Fixture.end_signal] [Fixture.fragment (Fixture.chunk_payload "late")]).
  reflexivity.
Defined.

Lemma deserialization_is_JSON_parse_witness :
  JSON.parse "{}" = Ok (JObj []) <->
  outcome (SglangClient.chatCompletion JSON.stringify JSON.parse
             (Fixture.handle (Ok "{}") []) Fixture.unary_request
             (([], []) : list Json * list JsError))
  = Ok (Unary (JObj [])).
Proof.
  apply (proj1 (proj2 (proj2 (deserialization_is_JSON_parse JSON.stringify JSON.parse
                                (Fixture.handle (Ok "{}") []) Fixture.keeper
                                Fixture.unary_request ([], []))))
           "{}" eq_refl eq_refl).
Defined.

(** C2 fails on the code: a transport that makes no invocation leaves the
    consumer without a terminal event, and one that reports an error and then
    sends the end signal gives it two, an error and an end of stream. *)
Lemma terminal_event_count_counterexample :
  terminal_count (events (Run.stream [])) = 0
  /\ terminal_count
       (events (Run.stream [Fixture.fragment (Fixture.chunk_payload "He")])) = 0
  /\ Run.stream [Fixture.failure Fixture.transport_down; Fixture.end_signal]
     = (([JNull], [Fixture.transport_down]),
        [Run.sent; EvOnError Fixture.transport_down; EvOnChunk JNull],
        Ok tt)
  /\ terminal_count
       (events (Run.stream [Fixture.failure Fixture.transport_down; Fixture.end_signal]))
     = 2.
Proof. repeat split; vm_compute; reflexivity. Qed.

(** C5 fails on the code: a chunk the transport sends after the end signal,
    or after an error, is parsed and handed to [onChunk] all the same. *)
Lemma late_chunk_counterexample :
  Run.stream [Fixture.end_signal; Fixture.fragment (Fixture.chunk_payload "late")]
  = (([JNull; Run.chunk "late"], []),
     [Run.sent; EvOnChunk JNull;
      EvJsonParse (Fixture.chunk_payload "late"); EvOnChunk (Run.chunk "late")],
     Ok tt)
  /\ silent_after_terminal
       (events (Run.stream [Fixture.end_signal;
                            Fixture.fragment (Fixture.chunk_payload "late")]))
     = false
  /\ silent_after_terminal
       (events (Run.stream [Fixture.failure Fixture.transport_down;
                            Fixture.fragment (Fixture.chunk_payload "late");
                            Fixture.end_signal]))
     = false.
Proof. repeat split; vm_compute; reflexivity. Qed.

(** C7 fails on the code: [{}] has none of the required fields and
    [{"id":5}] has an [id] of the wrong type, and both come back as a
    response and go to [onChunk] as a chunk, with no error. *)
Lemma shape_unchecked_counterexample :
  Shape.is_UnaryResponse (JObj []) = false
  /\ outcome (SglangClient.chatCompletion JSON.stringify JSON.parse
                (Fixture.handle (Ok "{}") []) Fixture.unary_request tt)
     = Ok (Unary (JObj []))
  /\ Shape.is_UnaryResponse (JObj [("id", JNum 5)]) = false
  /\ outcome (SglangClient.chatCompletion JSON.stringify JSON.parse
                (Fixture.handle (Ok Fixture.wrong_type_payload) []) Fixture.unary_request tt)
     = Ok (Unary (JObj [("id", JNum 5)]))
  /\ Shape.is_StreamFragment (JObj []) = false
  /\ Run.stream [Fixture.fragment "{}"]
     = (([JObj []], []), [Run.sent; EvJsonParse "{}"; EvOnChunk (JObj [])], Ok tt)
  /\ Shape.is_StreamFragment (JObj [("id", JNum 5)]) = false
  /\ Run.stream [Fixture.fragment Fixture.wrong_type_payload]
     = (([JObj [("id", JNum 5)]], []),
        [Run.sent; EvJsonParse Fixture.wrong_type_payload; EvOnChunk (JObj [("id", JNum 5)])], Ok tt).
Proof. repeat split; vm_compute; reflexivity. Qed.

(** The shapes accept the records the tests build. *)
Example shapes_accept_test_records :
  (match JSON.parse Fixture.response_payload with
   | Ok v => Shape.is_UnaryResponse v
   | Throw _ => false
   end) = true
  /\ Shape.is_StreamFragment (Run.chunk "Hello") = true.
Proof. split; vm_compute; reflexivity. Qed.

(** * Further properties of the code *)

(** ** Delivery to any callback *)

Section Delivery.
Context {St : Type}.
Variable cb : Invocation -> Eff St unit.

Lemma invoke_any_returns (inv : Invocation) (st : St) :
  outcome (SglangClient.invoke cb inv st) = Ok tt.
Proof.
  unfold SglangClient.invoke, try_catch, emit, outcome.
  destruct (cb inv st) as [[s1 t1] [[]|e]]; reflexivity.
Qed.

Lemma deliver_any_cons (inv : Invocation) (rest : list Invocation) (st : St) :
  SglangClient.deliver cb (inv :: rest) st
  = (final_state (SglangClient.deliver cb rest (final_state (SglangClient.invoke cb inv st))),
     events (SglangClient.invoke cb inv st)
       ++ events (SglangClient.deliver cb rest (final_state (SglangClient.invoke cb inv st))),
     outcome (SglangClient.deliver cb rest (final_state (SglangClient.invoke cb inv st)))).
Proof.
  cbn [SglangClient.deliver]. unfold bind.
  pose proof (invoke_any_returns inv st) as Hret.
  destruct (SglangClient.invoke cb inv st) as [[s1 t1] r1]. cbn in Hret. subst r1.
  unfold final_state, events, outcome. cbn.
  destruct (SglangClient.deliver cb rest s1) as [[s2 t2] r2]. reflexivity.
Qed.

(** A property of states that every invocation keeps is kept by delivery. *)
Lemma deliver_any_invariant (P : St -> Prop) :
  (forall inv st, P st -> P (final_state (SglangClient.invoke cb inv st))) ->
  forall invs st, P st -> P (final_state (SglangClient.deliver cb invs st)).
Proof.
  intros Hstep invs. induction invs as [|inv rest IH]; intros st HP; [exact HP|].
  rewrite deliver_any_cons. cbn [final_state fst]. apply IH, Hstep, HP.
Qed.
End Delivery.

Lemma parse_args_app (a b : list Event) :
  parse_args (a ++ b) = parse_args a ++ parse_args b.
Proof.
  induction a as [|ev a IH]; [reflexivity|].
  destruct ev; cbn; rewrite ?IH; reflexivity.
Qed.

Lemma onError_args_app (a b : list Event) :
  onError_args (a ++ b) = onError_args a ++ onError_args b.
Proof.
  induction a as [|ev a IH]; [reflexivity|].
  destruct ev; cbn; rewrite ?IH; reflexivity.
Qed.

Lemma console_errors_app (a b : list Event) :
  console_errors (a ++ b) = console_errors a ++ console_errors b.
Proof.
  induction a as [|ev a IH]; [reflexivity|].
  destruct ev; cbn; rewrite ?IH; reflexivity.
Qed.

(** ** More on the callback of [chatCompletionStream] *)

Section StreamCallback.
Context {St : Type}.
Variable JSON_stringify : Json -> string.
Variable JSON_parse : string -> Result Json.
Variable inner : Native.t.
Variable c : Consumer St.

Let callback := SglangClient.stream_callback JSON_parse c.
Let invoke := SglangClient.invoke callback.
Let deliver := SglangClient.deliver callback.

(** Each invocation, by its case, with what the consumer answers. *)
Ltac by_invocation_case inv st :=
  let e := fresh "e" in
  let v := fresh "v" in
  let He := fresh "Herr" in
  let Hend := fresh "Hend" in
  let Hp := fresh "Hparse" in
  destruct (invocation_cases JSON_parse inv)
    as [[e He] | [[He Hend] | [(He & Hend & e & Hp) | (He & Hend & v & Hp)]]];
  [ destruct inv as [err chunkStr]; cbn in He; subst err;
    subst invoke callback; rewrite (invoke_error JSON_parse c e chunkStr st)
  | subst invoke callback; rewrite (invoke_end_signal JSON_parse c inv st He Hend)
  | subst invoke callback; rewrite (invoke_unparsable JSON_parse c inv e st He Hend Hp)
  | subst invoke callback; rewrite (invoke_chunk JSON_parse c inv v st He Hend Hp) ].

Lemma parse_args_invoke (inv : Invocation) (st : St) :
  parse_args (events (invoke inv st)) = data_payload inv.
Proof.
  unfold data_payload. by_invocation_case inv st; cbn [inv_err inv_chunk].
  - destruct (onError c e st) as [st' [[]|e']]; reflexivity.
  - rewrite Herr, Hend. destruct (onChunk c JNull st) as [st' [[]|e']]; reflexivity.
  - rewrite Herr, Hend. destruct (onError c e st) as [st' [[]|e']]; reflexivity.
  - rewrite Herr, Hend. destruct (onChunk c v st) as [st1 [[]|e]]; [reflexivity|].
    destruct (onError c e st1) as [st2 [[]|e']]; reflexivity.
Qed.

Lemma uncaught_invoke (inv : Invocation) (st : St) :
  (forall s, snd (onChunk c JNull s) = Ok tt) ->
  (forall e s, snd (onError c e s) = Ok tt) ->
  filter is_uncaught (events (invoke inv st)) = [].
Proof.
  intros Hend_ok Herror_ok. by_invocation_case inv st.
  - specialize (Herror_ok e st). destruct (onError c e st) as [st' r].
    cbn in Herror_ok. subst r. reflexivity.
  - specialize (Hend_ok st). destruct (onChunk c JNull st) as [st' r].
    cbn in Hend_ok. subst r. reflexivity.
  - specialize (Herror_ok e st). destruct (onError c e st) as [st' r].
    cbn in Herror_ok. subst r. reflexivity.
  - destruct (onChunk c v st) as [st1 [[]|e]]; [reflexivity|].
    specialize (Herror_ok e st1). destruct (onError c e st1) as [st2 r].
    cbn in Herror_ok. subst r. reflexivity.
Qed.

Lemma onError_args_invoke (inv : Invocation) (st : St) :
  (forall chunk s, snd (onChunk c chunk s) = Ok tt) ->
  onError_args (events (invoke inv st)) = brought_error JSON_parse inv.
Proof.
  intros Hquiet. unfold brought_error. by_invocation_case inv st; cbn [inv_err inv_chunk].
  - destruct (onError c e st) as [st' [[]|e']]; reflexivity.
  - rewrite Herr, Hend. destruct (onChunk c JNull st) as [st' [[]|e']]; reflexivity.
  - rewrite Herr, Hend, Hparse. destruct (onError c e st) as [st' [[]|e']]; reflexivity.
  - rewrite Herr, Hend, Hparse. specialize (Hquiet v st).
    destruct (onChunk c v st) as [st1 r]. cbn in Hquiet. subst r. reflexivity.
Qed.

(** X1. An exception [onChunk] throws on a parsed chunk is caught and handed
    to [onError] at once; so for a consumer whose [onError] and whose
    [onChunk(null)] return normally, no exception ever leaves the callback,
    whatever the transport sends and whatever [onChunk] throws on chunks. *)
Theorem onChunk_exception_goes_to_onError (request : JsObject) (st : St) :
  (forall inv chunk e st0 st1,
      inv_err inv = None ->
      SglangClient.is_end_signal (inv_chunk inv) = false ->
      JSON_parse (ToString (inv_chunk inv)) = Ok chunk ->
      onChunk c chunk st0 = (st1, Throw e) ->
      consumer_calls (events (invoke inv st0)) = [EvOnChunk chunk; EvOnError e]
      /\ final_state (invoke inv st0) = fst (onError c e st1))
  /\ ((forall s, snd (onChunk c JNull s) = Ok tt) ->
      (forall e s, snd (onError c e s) = Ok tt) ->
      filter is_uncaught
        (events (SglangClient.chatCompletionStream JSON_stringify JSON_parse inner
                   request c st)) = []).
Proof.
  split.
  - intros inv chunk e st0 st1 Herr Hend Hparse Hthrow.
    subst invoke callback. rewrite (invoke_chunk JSON_parse c inv chunk st0 Herr Hend Hparse).
    rewrite Hthrow. destruct (onError c e st1) as [st2 [[]|e']]; split; reflexivity.
  - intros Hend_ok Herror_ok. rewrite chatCompletionStream_run. cbn [events fst snd filter is_uncaught].
    generalize (Native.chatCompletionStream inner (JSON_stringify (JObj request))).
    intros invs. revert st. induction invs as [|inv rest IH]; intros st; [reflexivity|].
    rewrite deliver_any_cons. cbn [events fst snd]. rewrite filter_app.
    fold callback. fold invoke. rewrite uncaught_invoke by assumption. apply IH.
Qed.

(** X2. The try block does not cover everything: an exception thrown by
    [onChunk(null)] on the end signal, or by [onError] on a transport error,
    is not caught and leaves the callback, after the one call that threw. *)
Theorem end_signal_exception_escapes (inv : Invocation) (st st1 : St) (e : JsError) :
  (inv_err inv = None ->
   SglangClient.is_end_signal (inv_chunk inv) = true ->
   onChunk c JNull st = (st1, Throw e) ->
   callback inv st = (st1, [EvOnChunk JNull], Throw e)
   /\ invoke inv st = (st1, [EvOnChunk JNull; EvUncaught e], Ok tt))
  /\ (forall err,
       inv_err inv = Some err ->
       onError c err st = (st1, Throw e) ->
       callback inv st = (st1, [EvOnError err], Throw e)
       /\ invoke inv st = (st1, [EvOnError err; EvUncaught e], Ok tt)).
Proof.
  split.
  - intros Herr Hend Hthrow. split.
    + subst callback. unfold SglangClient.stream_callback, call_onChunk.
      rewrite Herr, Hend, Hthrow. reflexivity.
    + subst invoke callback. rewrite (invoke_end_signal JSON_parse c inv st Herr Hend).
      rewrite Hthrow. reflexivity.
  - intros err Herr Hthrow. split.
    + subst callback. unfold SglangClient.stream_callback, call_onError.
      rewrite Herr, Hthrow. reflexivity.
    + destruct inv as [err0 chunkStr]. cbn in Herr. subst err0.
      subst invoke callback. rewrite (invoke_error JSON_parse c err chunkStr st).
      rewrite Hthrow. reflexivity.
Qed.

(** X3. [JSON.parse] is called once for each invocation that is neither an
    error nor the end signal, on its payload and in the order of the
    invocations, and for no other: what the consumer does has no part in it. *)
Theorem payloads_parsed_once (request : JsObject) (st : St) :
  parse_args (events (SglangClient.chatCompletionStream JSON_stringify JSON_parse inner
                        request c st))
  = flat_map data_payload (Native.chatCompletionStream inner (JSON_stringify (JObj request))).
Proof.
  rewrite chatCompletionStream_run. cbn [events fst snd parse_args].
  generalize (Native.chatCompletionStream inner (JSON_stringify (JObj request))).
  intros invs. revert st. induction invs as [|inv rest IH]; intros st; [reflexivity|].
  rewrite deliver_any_cons. cbn [events fst snd flat_map]. rewrite parse_args_app.
  fold callback. fold invoke. rewrite parse_args_invoke. f_equal. apply IH.
Qed.

(** X4. For a consumer whose [onChunk] returns normally, [onError] is called
    with the errors of the transport and the errors [JSON.parse] throws on
    payloads, each once and in the order of the invocations, and with
    nothing else. *)
Theorem onError_gets_transport_and_parse_errors (request : JsObject) (st : St) :
  (forall chunk s, snd (onChunk c chunk s) = Ok tt) ->
  onError_args (events (SglangClient.chatCompletionStream JSON_stringify JSON_parse inner
                          request c st))
  = flat_map (brought_error JSON_parse)
      (Native.chatCompletionStream inner (JSON_stringify (JObj request))).
Proof.
  intros Hquiet. rewrite chatCompletionStream_run. cbn [events fst snd onError_args].
  generalize (Native.chatCompletionStream inner (JSON_stringify (JObj request))).
  intros invs. revert st. induction invs as [|inv rest IH]; intros st; [reflexivity|].
  rewrite deliver_any_cons. cbn [events fst snd flat_map]. rewrite onError_args_app.
  fold callback. fold invoke. rewrite onError_args_invoke by assumption. f_equal. apply IH.
Qed.
End StreamCallback.

(** ** The callback of the generator in [chatCompletion] *)

Section IteratorCallback.
Variable JSON_parse : string -> Result Json.

Let callback := SglangClient.iterator_callback JSON_parse.

Lemma iterator_callback_run (inv : Invocation) (l : SglangClient.IterLocals) :
  callback inv l
  = (SglangClient.mkLocals
       (SglangClient.queue l ++ queued_value JSON_parse inv)
       false
       (SglangClient.done l)
       (match inv_err inv with Some e => Some e | None => SglangClient.error l end),
     map EvJsonParse (queued_text inv)
       ++ map (fun me => EvConsoleError (fst me) (snd me)) (queued_failure JSON_parse inv),
     Ok tt).
Proof.
  subst callback. unfold SglangClient.iterator_callback, queued_value, queued_failure, queued_text.
  destruct l as [q rq d er]. destruct inv as [[e|] [chunk|]]; cbn.
  - unfold bind. cbn. rewrite app_nil_r. destruct rq; reflexivity.
  - unfold bind. cbn. rewrite app_nil_r. destruct rq; reflexivity.
  - destruct (String.eqb chunk EmptyString).
    + unfold bind, try_catch, ret. cbn. rewrite app_nil_r. destruct rq; reflexivity.
    + unfold bind, try_catch, emit. cbn.
      destruct (JSON_parse chunk) as [v|e]; cbn; [|rewrite app_nil_r]; destruct rq; reflexivity.
  - unfold bind, try_catch, ret. cbn. rewrite app_nil_r. destruct rq; reflexivity.
Qed.

Lemma iterator_invoke_run (inv : Invocation) (l : SglangClient.IterLocals) :
  SglangClient.invoke callback inv l = callback inv l.
Proof.
  unfold SglangClient.invoke, try_catch. rewrite iterator_callback_run. reflexivity.
Qed.

(** X5. The generator's callback never throws and never calls back: a chunk
    that does not parse is reported with [console.error] and dropped, and
    over any sequence of invocations nothing leaves the callback, the
    console gets exactly the parse failures in order, and [JSON.parse] gets
    exactly the non-empty chunks of the non-error invocations. *)
Theorem iterator_callback_swallows_parse_errors
    (invs : list Invocation) (l : SglangClient.IterLocals) :
  let run := SglangClient.deliver callback invs l in
  (forall inv l0, outcome (callback inv l0) = Ok tt)
  /\ filter is_uncaught (events run) = []
  /\ consumer_calls (events run) = []
  /\ console_errors (events run) = flat_map (queued_failure JSON_parse) invs
  /\ parse_args (events run) = flat_map queued_text invs.
Proof.
  cbn zeta. split; [intros inv l0; rewrite iterator_callback_run; reflexivity|].
  revert l. induction invs as [|inv rest IH]; intros l; [repeat split|].
  rewrite deliver_any_cons, iterator_invoke_run. cbn [events fst snd flat_map].
  rewrite filter_app, consumer_calls_app, console_errors_app, parse_args_app.
  destruct (IH (final_state (callback inv l))) as (IH1 & IH2 & IH3 & IH4).
  rewrite IH1, IH2, IH3, IH4. rewrite iterator_callback_run. cbn [events fst snd].
  unfold queued_failure, queued_text.
  destruct inv as [[e|] [chunk|]]; cbn; try (repeat split; reflexivity).
  destruct (String.eqb chunk EmptyString); cbn; [repeat split; reflexivity|].
  destruct (JSON_parse chunk) as [v|e]; cbn; repeat split; reflexivity.
Qed.

(** X6. After any sequence of invocations the generator's locals are: the
    queue with the parsed non-empty chunks of the non-error invocations
    appended in order (the chunk ["null"] is queued as [null]; an empty or
    [null] chunk is skipped), [error] the error of the last error
    invocation, [resolveQueue] cleared, and [done] as it was: the callback
    never marks the stream as done. *)
Theorem iterator_callback_accumulates
    (invs : list Invocation) (l : SglangClient.IterLocals) :
  let l' := final_state (SglangClient.deliver callback invs l) in
  SglangClient.queue l' = SglangClient.queue l ++ flat_map (queued_value JSON_parse) invs
  /\ SglangClient.error l' = last_error (SglangClient.error l) invs
  /\ SglangClient.done l' = SglangClient.done l
  /\ SglangClient.resolveQueue l'
     = match invs with [] => SglangClient.resolveQueue l | _ :: _ => false end.
Proof.
  cbn zeta. revert l. induction invs as [|inv rest IH]; intros l.
  - cbn. rewrite app_nil_r. repeat split.
  - rewrite deliver_any_cons, iterator_invoke_run.
    change (final_state (?a, ?b, ?d)) with a.
    destruct (IH (final_state (callback inv l))) as (IH1 & IH2 & IH3 & IH4).
    rewrite IH1, IH2, IH3, IH4. rewrite iterator_callback_run.
    change (final_state (?a, ?b, ?d)) with a. cbn [flat_map last_error].
    cbn [SglangClient.queue SglangClient.error SglangClient.done SglangClient.resolveQueue].
    rewrite app_assoc. repeat split. destruct rest; reflexivity.
Qed.
End IteratorCallback.

(** ** The stream consumers of the tests *)

Lemma string_app_nil_r (s : string) : (s ++ EmptyString)%string = s.
Proof. induction s as [|ch s IH]; cbn; [reflexivity | rewrite IH; reflexivity]. Qed.

Lemma string_app_assoc (a b d : string) : ((a ++ b) ++ d)%string = (a ++ (b ++ d))%string.
Proof. induction a as [|ch a IH]; cbn; [reflexivity | rewrite IH; reflexivity]. Qed.

Section StreamTestFacts.
Import JS StreamTest.
Variable process_stdout_write : option Json -> Result unit.

Lemma take_content_run (chunk : Json) (st : State) :
  let run := take_content process_stdout_write chunk st in
  fullContent (final_state run) = (fullContent st ++ delta_text chunk)%string
  /\ streamPromise (final_state run) = streamPromise st
  /\ events run = []
  /\ outcome run = match chunk_failure process_stdout_write chunk with
                   | Some e => Throw e
                   | None => Ok tt
                   end.
Proof.
  cbn zeta. unfold take_content, delta_text, chunk_failure, bind, lift, ret,
    append_content, write, final_state, events, outcome.
  destruct (has_content chunk) as [[|]|e]; cbn.
  - destruct (delta_content chunk) as [content|e]; cbn.
    + destruct (process_stdout_write content) as [[]|e]; cbn; repeat split.
    + rewrite string_app_nil_r. repeat split.
  - rewrite string_app_nil_r. repeat split.
  - rewrite string_app_nil_r. repeat split.
Qed.

Lemma on_error_run (err : JsError) (st : State) :
  let run := on_error err st in
  fullContent (final_state run) = fullContent st
  /\ streamPromise (final_state run) = settle (streamPromise st) (Some (Rejected err))
  /\ events run = []
  /\ outcome run = Ok tt.
Proof.
  cbn zeta. unfold on_error, console_error, reject, bind, final_state, events, outcome.
  cbn. destruct (streamPromise st); repeat split.
Qed.
End StreamTestFacts.

Lemma text_of_app (a b : list Json) :
  StreamTest.text_of (a ++ b) = (StreamTest.text_of a ++ StreamTest.text_of b)%string.
Proof.
  unfold StreamTest.text_of. induction a as [|v a IH]; cbn [app fold_right]; [reflexivity|].
  rewrite IH, string_app_assoc. reflexivity.
Qed.

Lemma settle_settled (p : JS.Settlement) (vs : list (option JS.Settlement)) :
  p <> JS.Pending -> fold_left StreamTest.settle vs p = p.
Proof.
  intros Hp. induction vs as [|v vs IH]; [reflexivity|].
  cbn. destruct p; [contradiction| |]; exact IH.
Qed.

Section ClientTestJsFacts.
Import JS StreamTest.
Variable process_stdout_write : option Json -> Result unit.
Variable JSON_stringify : Json -> string.
Variable JSON_parse : string -> Result Json.
Variable inner : Native.t.

Let consumer := ClientTestJs.consumer process_stdout_write.
Let callback := SglangClient.stream_callback JSON_parse consumer.

Lemma js_on_chunk_run (chunk : Json) (st : State) :
  let run := onChunk consumer chunk st in
  fullContent (fst run) = (fullContent st ++ delta_text chunk)%string
  /\ streamPromise (fst run)
     = match chunk with
       | JNull => settle (streamPromise st) (Some Fulfilled)
       | _ => streamPromise st
       end
  /\ snd run = match chunk with
               | JNull => Ok tt
               | _ => match chunk_failure process_stdout_write chunk with
                      | Some e => Throw e
                      | None => Ok tt
                      end
               end.
Proof.
  cbn zeta. subst consumer. cbn [onChunk ClientTestJs.consumer].
  unfold as_callback, ClientTestJs.on_chunk. cbn [fst snd].
  destruct chunk;
    try (match goal with
         | |- context [take_content _ ?ch _] =>
             destruct (take_content_run process_stdout_write ch st) as (H1 & H2 & _ & H4)
         end; repeat split; assumption).
  unfold resolve, final_state, outcome. cbn [fst snd].
  change (delta_text JNull) with EmptyString. rewrite string_app_nil_r.
  destruct (streamPromise st) eqn:Hp; cbn; rewrite ?Hp; repeat split.
Qed.

Lemma js_on_error_run (err : JsError) (st : State) :
  let run := onError consumer err st in
  fullContent (fst run) = fullContent st
  /\ streamPromise (fst run) = settle (streamPromise st) (Some (Rejected err))
  /\ snd run = Ok tt.
Proof.
  cbn zeta. subst consumer. cbn [onError ClientTestJs.consumer].
  unfold as_callback. cbn [fst snd].
  destruct (on_error_run err st) as (H1 & H2 & _ & H4). repeat split; assumption.
Qed.

Lemma js_invoke_step (inv : Invocation) (st : State) :
  let run := SglangClient.invoke callback inv st in
  fullContent (final_state run)
  = (fullContent st ++ text_of (carried_value JSON_parse inv))%string
  /\ streamPromise (final_state run)
     = settle (streamPromise st) (ClientTestJs.verdict process_stdout_write JSON_parse inv)
  /\ filter is_uncaught (events run) = [].
Proof.
  cbn zeta. unfold carried_value, ClientTestJs.verdict.
  destruct (invocation_cases JSON_parse inv)
    as [[e He] | [[He Hend] | [(He & Hend & e & Hp) | (He & Hend & v & Hp)]]].
  - destruct inv as [err chunkStr]. cbn in He. subst err. subst callback.
    rewrite (invoke_error JSON_parse consumer e chunkStr st). cbn [inv_err].
    destruct (js_on_error_run e st) as (H1 & H2 & H3).
    destruct (onError consumer e st) as [st' r]. cbn in H1, H2, H3. subst r.
    cbn. rewrite string_app_nil_r. repeat split; assumption.
  - subst callback. rewrite (invoke_end_signal JSON_parse consumer inv st He Hend), He, Hend.
    destruct (js_on_chunk_run JNull st) as (H1 & H2 & H3).
    destruct (onChunk consumer JNull st) as [st' r]. cbn in H1, H2, H3. subst r.
    cbn. repeat split; assumption.
  - subst callback.
    rewrite (invoke_unparsable JSON_parse consumer inv e st He Hend Hp), He, Hend, Hp.
    destruct (js_on_error_run e st) as (H1 & H2 & H3).
    destruct (onError consumer e st) as [st' r]. cbn in H1, H2, H3. subst r.
    cbn. rewrite string_app_nil_r. repeat split; assumption.
  - subst callback.
    rewrite (invoke_chunk JSON_parse consumer inv v st He Hend Hp), He, Hend, Hp.
    destruct (js_on_chunk_run v st) as (H1 & H2 & H3).
    destruct (onChunk consumer v st) as [st1 r]. cbn [fst snd] in H1, H2, H3.
    cbn [text_of fold_right]. rewrite string_app_nil_r.
    destruct r as [[]|e].
    + cbn. split; [exact H1|]. split; [|reflexivity].
      rewrite H2. destruct v; try reflexivity;
        destruct (chunk_failure process_stdout_write _); try discriminate;
        destruct (streamPromise st); reflexivity.
    + destruct (js_on_error_run e st1) as (G1 & G2 & G3).
      destruct (onError consumer e st1) as [st2 r2]. cbn [fst snd] in G1, G2, G3. subst r2.
      cbn. split; [congruence|]. split; [|reflexivity].
      rewrite G2, H2. destruct v; try discriminate;
        destruct (chunk_failure process_stdout_write _); try discriminate;
        injection H3 as <-; reflexivity.
Qed.
Lemma js_deliver_run (invs : list Invocation) (st : State) :
  let run := SglangClient.deliver callback invs st in
  fullContent (final_state run)
  = (fullContent st ++ text_of (carried JSON_parse invs))%string
  /\ streamPromise (final_state run)
     = fold_left settle (map (ClientTestJs.verdict process_stdout_write JSON_parse) invs)
         (streamPromise st)
  /\ filter is_uncaught (events run) = [].
Proof.
  cbn zeta. revert st. induction invs as [|inv rest IH]; intros st.
  - cbn. rewrite string_app_nil_r. repeat split.
  - rewrite deliver_any_cons.
    change (final_state (?a, ?b, ?d)) with a. change (events (?a, ?b, ?d)) with b.
    destruct (js_invoke_step inv st) as (H1 & H2 & H3).
    destruct (IH (final_state (SglangClient.invoke callback inv st))) as (G1 & G2 & G3).
    rewrite G1, G2, H1, H2, filter_app, H3, G3.
    unfold carried. cbn [flat_map map fold_left].
    fold (carried JSON_parse rest). rewrite text_of_app, string_app_assoc.
    repeat split.
Qed.

(** X7. In the stream test of client_test.js, [fullContent] ends as what
    it was followed by the texts of the chunks the transport carried, in
    the order of the invocations: for a chunk, the text is
    [choices[0].delta.content] when that is there and truthy, and nothing
    otherwise.  Errors, end signals and failures of [process.stdout.write]
    take nothing away from it. *)
Theorem test_content_is_concatenation (request : JsObject) (st : State) :
  fullContent
    (final_state (SglangClient.chatCompletionStream JSON_stringify JSON_parse inner
                    request consumer st))
  = (fullContent st
     ++ text_of (carried JSON_parse
                   (Native.chatCompletionStream inner (JSON_stringify (JObj request)))))%string
  /\ (forall r ch rest d s,
        get_prop "choices" r = Some (JArr (JObj ch :: rest)) ->
        get_prop "delta" ch = Some (JObj d) ->
        get_prop "content" d = Some (JStr s) ->
        delta_text (JObj r) = s)
  /\ (forall r, get_prop "choices" r = None -> delta_text (JObj r) = EmptyString).
Proof.
  split; [|split].
  - rewrite chatCompletionStream_run. change (final_state (?a, ?b, ?d)) with a.
    apply js_deliver_run.
  - intros r ch rest d s Hchoices Hdelta Hcontent.
    unfold delta_text, has_content, delta_content, member, first.
    rewrite Hchoices. cbn. rewrite Hdelta, Hcontent. cbn.
    destruct s; reflexivity.
  - intros r Hchoices. unfold delta_text, has_content, member. rewrite Hchoices. reflexivity.
Qed.

(** X8. The promise of the stream test of client_test.js settles once: when
    it is fulfilled or rejected, nothing the transport sends afterwards
    changes it. *)
Theorem test_promise_settles_once (request : JsObject) (st : State) :
  streamPromise st <> Pending ->
  streamPromise
    (final_state (SglangClient.chatCompletionStream JSON_stringify JSON_parse inner
                    request consumer st))
  = streamPromise st.
Proof.
  intros Hsettled. rewrite chatCompletionStream_run. change (final_state (?a, ?b, ?d)) with a.
  destruct (js_deliver_run
              (Native.chatCompletionStream inner (JSON_stringify (JObj request))) st)
    as (_ & H & _).
  cbn zeta in H. unfold callback in H. rewrite H. apply settle_settled. exact Hsettled.
Qed.

Lemma js_verdict_settled (inv : Invocation) (p : Settlement) :
  ClientTestJs.verdict process_stdout_write JSON_parse inv = Some p -> p <> Pending.
Proof.
  unfold ClientTestJs.verdict. intros Hv Hp. subst p.
  destruct (inv_err inv); [discriminate|].
  destruct (SglangClient.is_end_signal (inv_chunk inv)); [discriminate|].
  destruct (JSON_parse (ToString (inv_chunk inv))) as [v|e]; [|discriminate].
  destruct v; try discriminate;
    destruct (chunk_failure process_stdout_write _); discriminate.
Qed.

(** X9. What the promise of the stream test of client_test.js becomes is
    decided by the first invocation that ends the stream: fulfilled by an
    end signal or a payload that parses to [null], rejected by a transport
    error, by a payload that does not parse, or by a chunk on which the
    chunk callback throws.  When the transport makes no such invocation the
    promise stays as it was. *)
Theorem test_promise_decided_by_first_ending (request : JsObject) (st : State) :
  let script := Native.chatCompletionStream inner (JSON_stringify (JObj request)) in
  let verdict := ClientTestJs.verdict process_stdout_write JSON_parse in
  let final := final_state (SglangClient.chatCompletionStream JSON_stringify JSON_parse
                              inner request consumer st) in
  streamPromise final = fold_left settle (map verdict script) (streamPromise st)
  /\ ((forall inv, In inv script -> verdict inv = None) ->
      streamPromise final = streamPromise st)
  /\ (forall pre inv post p,
        script = pre ++ inv :: post ->
        (forall inv', In inv' pre -> verdict inv' = None) ->
        verdict inv = Some p ->
        streamPromise st = Pending ->
        streamPromise final = p).
Proof.
  intros script verdict final. subst final.
  rewrite chatCompletionStream_run. change (final_state (?a, ?b, ?d)) with a. fold script.
  destruct (js_deliver_run script st) as (_ & H & _). cbn zeta in H.
  unfold callback in H. fold verdict in H.
  assert (Hnone : forall l p, (forall inv, In inv l -> verdict inv = None) ->
                              fold_left settle (map verdict l) p = p).
  { induction l as [|inv l IH]; intros p Hl; [reflexivity|].
    cbn [map fold_left]. rewrite (Hl inv (or_introl eq_refl)).
    replace (settle p None) with p by (destruct p; reflexivity).
    apply IH. intros inv' Hin. apply Hl. right. exact Hin. }
  split; [exact H|]. split.
  - intros Hall. rewrite H. apply Hnone. exact Hall.
  - intros pre inv post p Hsplit Hpre Hv Hpending.
    rewrite H, Hsplit, map_app, fold_left_app.
    rewrite (Hnone pre _ Hpre), Hpending. cbn [map fold_left]. rewrite Hv. cbn [settle].
    apply settle_settled. exact (js_verdict_settled inv p Hv).
Qed.

(** X10. With the stream consumer of client_test.js no exception leaves the
    client's callback, whatever the transport sends and whether
    [process.stdout.write] throws or not: what its chunk callback throws is
    caught by the client and handed to its error callback, which does not
    throw. *)
Theorem test_consumer_contains_exceptions (request : JsObject) (st : State) :
  filter is_uncaught
    (events (SglangClient.chatCompletionStream JSON_stringify JSON_parse inner
               request consumer st)) = []
  /\ (forall chunk e st0,
        chunk_failure process_stdout_write chunk = Some e ->
        chunk <> JNull ->
        snd (onChunk consumer chunk st0) = Throw e)
  /\ (forall e st0, snd (onError consumer e st0) = Ok tt).
Proof.
  split; [|split].
  - rewrite chatCompletionStream_run. cbn [events fst snd filter is_uncaught].
    apply js_deliver_run.
  - intros chunk e st0 Hfail Hnot_null.
    destruct (js_on_chunk_run chunk st0) as (_ & _ & H). cbn zeta in H. rewrite H.
    destruct chunk; try contradiction; rewrite Hfail; reflexivity.
  - intros e st0. apply js_on_error_run.
Qed.
End ClientTestJsFacts.

Section ClientTestTsFacts.
Import JS StreamTest.
Variable process_stdout_write : option Json -> Result unit.
Variable JSON_stringify : Json -> string.
Variable JSON_parse : string -> Result Json.
Variable inner : Native.t.

Let consumer := ClientTestTs.consumer process_stdout_write.
Let callback := SglangClient.stream_callback JSON_parse consumer.
Let verdict := ClientTestTs.verdict process_stdout_write JSON_parse.

(** The TypeError of [chunk.choices] on [null]. *)
Let null_chunk_error := cannot_read "null" "choices".

Lemma ts_on_chunk_run (chunk : Json) (st : State) :
  let run := onChunk consumer chunk st in
  fullContent (fst run) = (fullContent st ++ delta_text chunk)%string
  /\ streamPromise (fst run) = streamPromise st
  /\ snd run = match chunk_failure process_stdout_write chunk with
               | Some e => Throw e
               | None => Ok tt
               end.
Proof.
  cbn zeta. subst consumer. cbn [onChunk ClientTestTs.consumer].
  unfold as_callback, ClientTestTs.on_chunk. cbn [fst snd].
  destruct (take_content_run process_stdout_write chunk st) as (H1 & H2 & _ & H4).
  repeat split; assumption.
Qed.

Lemma ts_on_chunk_null (st : State) :
  onChunk consumer JNull st = (st, Throw null_chunk_error).
Proof. reflexivity. Qed.

Lemma ts_on_error_run (err : JsError) (st : State) :
  let run := onError consumer err st in
  fullContent (fst run) = fullContent st
  /\ streamPromise (fst run) = settle (streamPromise st) (Some (Rejected err))
  /\ snd run = Ok tt.
Proof.
  cbn zeta. subst consumer. cbn [onError ClientTestTs.consumer].
  unfold as_callback. cbn [fst snd].
  destruct (on_error_run err st) as (H1 & H2 & _ & H4). repeat split; assumption.
Qed.

Lemma ts_invoke_end_signal (inv : Invocation) (st : State) :
  is_end_invocation inv = true ->
  SglangClient.invoke callback inv st
  = (st, [EvOnChunk JNull; EvUncaught null_chunk_error], Ok tt).
Proof.
  unfold is_end_invocation. intros Hend.
  destruct (inv_err inv) eqn:Herr; [discriminate|].
  subst callback. rewrite (invoke_end_signal JSON_parse consumer inv st Herr Hend).
  rewrite ts_on_chunk_null. reflexivity.
Qed.

Lemma ts_invoke_step (inv : Invocation) (st : State) :
  let run := SglangClient.invoke callback inv st in
  fullContent (final_state run)
  = (fullContent st ++ text_of (carried_value JSON_parse inv))%string
  /\ streamPromise (final_state run) = settle (streamPromise st) (verdict inv)
  /\ filter is_uncaught (events run)
     = if is_end_invocation inv then [EvUncaught null_chunk_error] else [].
Proof.
  cbn zeta. subst verdict. unfold carried_value, ClientTestTs.verdict, is_end_invocation.
  destruct (invocation_cases JSON_parse inv)
    as [[e He] | [[He Hend] | [(He & Hend & e & Hp) | (He & Hend & v & Hp)]]].
  - destruct inv as [err chunkStr]. cbn in He. subst err. subst callback.
    rewrite (invoke_error JSON_parse consumer e chunkStr st). cbn [inv_err].
    destruct (ts_on_error_run e st) as (H1 & H2 & H3).
    destruct (onError consumer e st) as [st' r]. cbn in H1, H2, H3. subst r.
    cbn. rewrite string_app_nil_r. repeat split; assumption.
  - assert (Hinv : is_end_invocation inv = true)
      by (unfold is_end_invocation; rewrite He; exact Hend).
    rewrite (ts_invoke_end_signal inv st Hinv), He, Hend.
    cbn. rewrite string_app_nil_r. destruct (streamPromise st); repeat split.
  - subst callback.
    rewrite (invoke_unparsable JSON_parse consumer inv e st He Hend Hp), He, Hend, Hp.
    destruct (ts_on_error_run e st) as (H1 & H2 & H3).
    destruct (onError consumer e st) as [st' r]. cbn in H1, H2, H3. subst r.
    cbn. rewrite string_app_nil_r. repeat split; assumption.
  - subst callback.
    rewrite (invoke_chunk JSON_parse consumer inv v st He Hend Hp), He, Hend, Hp.
    destruct (ts_on_chunk_run v st) as (H1 & H2 & H3).
    destruct (onChunk consumer v st) as [st1 r]. cbn [fst snd] in H1, H2, H3.
    cbn [text_of fold_right]. rewrite string_app_nil_r.
    destruct r as [[]|e].
    + cbn. split; [exact H1|]. split; [|reflexivity].
      rewrite H2. destruct (chunk_failure process_stdout_write v); try discriminate.
      destruct (streamPromise st); reflexivity.
    + destruct (ts_on_error_run e st1) as (G1 & G2 & G3).
      destruct (onError consumer e st1) as [st2 r2]. cbn [fst snd] in G1, G2, G3. subst r2.
      cbn. split; [congruence|]. split; [|reflexivity].
      rewrite G2, H2. destruct (chunk_failure process_stdout_write v); try discriminate.
      injection H3 as <-. reflexivity.
Qed.

Lemma ts_verdict_not_fulfilled (inv : Invocation) (p : Settlement) :
  verdict inv = Some p -> exists e, p = Rejected e.
Proof.
  subst verdict. unfold ClientTestTs.verdict. intros Hv.
  destruct (inv_err inv); [injection Hv as <-; eauto|].
  destruct (SglangClient.is_end_signal (inv_chunk inv)); [discriminate|].
  destruct (JSON_parse (ToString (inv_chunk inv))) as [v|e]; [|injection Hv as <-; eauto].
  destruct (chunk_failure process_stdout_write v); [injection Hv as <-; eauto|discriminate].
Qed.

Lemma ts_deliver_run (invs : list Invocation) (st : State) :
  let run := SglangClient.deliver callback invs st in
  fullContent (final_state run)
  = (fullContent st ++ text_of (carried JSON_parse invs))%string
  /\ streamPromise (final_state run) = fold_left settle (map verdict invs) (streamPromise st)
  /\ filter is_uncaught (events run)
     = map (fun _ => EvUncaught null_chunk_error) (filter is_end_invocation invs).
Proof.
  cbn zeta. revert st. induction invs as [|inv rest IH]; intros st.
  - cbn. rewrite string_app_nil_r. repeat split.
  - rewrite deliver_any_cons.
    change (final_state (?a, ?b, ?d)) with a. change (events (?a, ?b, ?d)) with b.
    destruct (ts_invoke_step inv st) as (H1 & H2 & H3).
    destruct (IH (final_state (SglangClient.invoke callback inv st))) as (G1 & G2 & G3).
    rewrite G1, G2, H1, H2, filter_app, H3, G3.
    unfold carried. cbn [flat_map map fold_left filter].
    fold (carried JSON_parse rest). rewrite text_of_app, string_app_assoc.
    repeat split. destruct (is_end_invocation inv); reflexivity.
Qed.

Lemma not_fulfilled_kept (vs : list Invocation) (p : Settlement) :
  p <> Fulfilled -> fold_left settle (map verdict vs) p <> Fulfilled.
Proof.
  revert p. induction vs as [|inv vs IH]; intros p Hp; [exact Hp|].
  cbn [map fold_left]. apply IH.
  destruct (verdict inv) as [q|] eqn:Hv.
  - destruct (ts_verdict_not_fulfilled inv q Hv) as [e ->].
    destruct p; cbn; [discriminate | contradiction | discriminate].
  - destruct p; cbn; [discriminate | contradiction | discriminate].
Qed.

(** X11. The chunk callback of client_test.ts reads [chunk.choices] without
    a test for [null]: on every end signal the client delivers, it throws a
    TypeError that the client does not catch, it leaves the test's state as
    it was, and so no sequence of invocations ever fulfils the test's
    promise; the uncaught errors of a stream are one per end signal. *)
Theorem ts_end_signal_raises_TypeError (request : JsObject) (st : State) :
  let script := Native.chatCompletionStream inner (JSON_stringify (JObj request)) in
  let run := SglangClient.chatCompletionStream JSON_stringify JSON_parse inner
               request consumer st in
  (forall inv st0,
      is_end_invocation inv = true ->
      SglangClient.invoke callback inv st0
      = (st0, [EvOnChunk JNull; EvUncaught null_chunk_error], Ok tt))
  /\ filter is_uncaught (events run)
     = map (fun _ => EvUncaught null_chunk_error) (filter is_end_invocation script)
  /\ (streamPromise st <> Fulfilled -> streamPromise (final_state run) <> Fulfilled).
Proof.
  intros script run. subst run. rewrite chatCompletionStream_run. fold script.
  change (final_state (?a, ?b, ?d)) with a. cbn [events fst snd filter is_uncaught].
  destruct (ts_deliver_run script st) as (_ & H2 & H3). cbn zeta in H2, H3.
  unfold callback in H2, H3.
  split; [exact ts_invoke_end_signal|]. split; [exact H3|].
  intros Hp. rewrite H2. apply not_fulfilled_kept. exact Hp.
Qed.

Lemma ts_on_timeout_run (st : State) :
  let run := ClientTestTs.on_timeout st in
  fullContent (final_state run) = fullContent st
  /\ streamPromise (final_state run)
     = settle (streamPromise st) (Some (ClientTestTs.timeout_verdict (fullContent st)))
  /\ events run = [].
Proof.
  cbn zeta. unfold ClientTestTs.on_timeout, ClientTestTs.timeout_verdict, console_log, bind,
    resolve, reject, final_state, events.
  cbn [fullContent streamPromise written reported logged fst snd].
  destruct (0 <? String.length (fullContent st))%nat;
    destruct (streamPromise st) eqn:Hp; cbn; rewrite ?Hp; repeat split.
Qed.

(** X12. The promise of the stream test of client_test.ts is settled by the
    time its timer has fired, and what comes after the timer does not change
    it: it is rejected with the first error among the invocations made
    before the timer fired (a transport error, a payload that does not
    parse, a chunk on which the chunk callback throws) when there is one;
    otherwise it is fulfilled when [fullContent] is not empty at that
    moment and rejected with "No content received" when it is. *)
Theorem ts_promise_decided_at_timeout (request : JsObject) (fired_after : nat) (st : State) :
  let script := Native.chatCompletionStream inner (JSON_stringify (JObj request)) in
  let before := firstn fired_after script in
  let final := final_state
                 (ClientTestTs.stream_test process_stdout_write JSON_stringify JSON_parse
                    inner request fired_after st) in
  streamPromise final
  = settle (fold_left settle (map verdict before) (streamPromise st))
      (Some (ClientTestTs.timeout_verdict
               (fullContent st ++ text_of (carried JSON_parse before))%string))
  /\ streamPromise final <> Pending.
Proof.
  intros script before final.
  assert (Hfinal : streamPromise final
                   = settle (fold_left settle (map verdict before) (streamPromise st))
                       (Some (ClientTestTs.timeout_verdict
                                (fullContent st ++ text_of (carried JSON_parse before))%string))).
  { subst final. unfold ClientTestTs.stream_test. fold script. fold before.
    fold consumer. fold callback.
    unfold bind at 1. unfold emit at 1. cbv beta iota.
    unfold bind at 1.
    destruct (ts_deliver_run before st) as (H1 & H2 & _). cbn zeta in H1, H2.
    pose proof (invoke_any_returns callback) as Hret.
    assert (Hok : forall l s, outcome (SglangClient.deliver callback l s) = Ok tt).
    { induction l as [|inv l IH]; intros s; [reflexivity|].
      rewrite deliver_any_cons. apply IH. }
    pose proof (Hok before st) as Hok1.
    destruct (SglangClient.deliver callback before st) as [[s1 t1] r1].
    cbn in Hok1. subst r1. cbn [final_state fst] in H1, H2.
    unfold bind at 1.
    destruct (ts_on_timeout_run s1) as (T1 & T2 & _). cbn zeta in T1, T2.
    assert (Tok : outcome (ClientTestTs.on_timeout s1) = Ok tt).
    { unfold ClientTestTs.on_timeout, console_log, bind, resolve, reject, outcome.
      cbn [fullContent streamPromise written reported logged fst snd].
      destruct (0 <? String.length (fullContent s1))%nat; reflexivity. }
    destruct (ClientTestTs.on_timeout s1) as [[s2 t2] r2].
    cbn in Tok. subst r2. cbn [final_state fst] in T1, T2.
    destruct (ts_deliver_run (skipn fired_after script) s2) as (_ & P2 & _). cbn zeta in P2.
    destruct (SglangClient.deliver callback (skipn fired_after script) s2) as [[s3 t3] r3].
    cbn [final_state fst] in P2 |- *.
    rewrite P2, T2, H1, H2. apply settle_settled.
    unfold ClientTestTs.timeout_verdict.
    destruct (fold_left settle (map verdict before) (streamPromise st));
      destruct (0 <? _)%nat; discriminate. }
  split; [exact Hfinal|]. rewrite Hfinal.
  unfold ClientTestTs.timeout_verdict.
  destruct (fold_left settle (map verdict before) (streamPromise st));
    destruct (0 <? _)%nat; discriminate.
Qed.
End ClientTestTsFacts.

(** ** Runs of the further properties *)

(** The transport sends "He", "llo" and the end signal to the stream test of
    client_test.js: [fullContent] is "Hello", both texts were written, and
    the promise is fulfilled. *)
Example js_test_He_llo :
  final_state (TestRun.js [Fixture.fragment (Fixture.chunk_payload "He");
                           Fixture.fragment (Fixture.chunk_payload "llo");
                           Fixture.end_signal])
  = StreamTest.mkState "Hello" JS.Fulfilled [Some (JStr "He"); Some (JStr "llo")] [] [].
Proof. vm_compute. reflexivity. Qed.

(** A chunk with an empty [choices] makes the chunk callback throw; the
    client hands the TypeError to the error callback, which rejects. *)
Example js_test_no_choice :
  final_state (TestRun.js [Fixture.fragment TestRun.no_choice_payload; Fixture.end_signal])
  = StreamTest.mkState EmptyString
      (JS.Rejected (JS.cannot_read "undefined" "delta")) []
      [("Stream error:", JS.cannot_read "undefined" "delta")] [].
Proof. vm_compute. reflexivity. Qed.

(** The same stream in the test of client_test.ts, the timer firing last:
    the end signal throws out of the callback and the timer fulfils. *)
Example ts_test_He_llo :
  let run := TestRun.ts [Fixture.fragment (Fixture.chunk_payload "He");
                         Fixture.fragment (Fixture.chunk_payload "llo");
                         Fixture.end_signal] 3 in
  StreamTest.fullContent (final_state run) = "Hello"
  /\ StreamTest.streamPromise (final_state run) = JS.Fulfilled
  /\ filter is_uncaught (events run) = [EvUncaught (JS.cannot_read "null" "choices")].
Proof. cbn zeta. repeat split; vm_compute; reflexivity. Qed.

Lemma onChunk_exception_goes_to_onError_witness :
  filter is_uncaught
    (events (SglangClient.chatCompletionStream JSON.stringify JSON.parse
               (Fixture.handle (Ok "{}") [Fixture.fragment "{}"; Fixture.end_signal])
               Fixture.stream_request Fixture.fussy tt)) = [].
Proof.
  apply (proj2 (onChunk_exception_goes_to_onError JSON.stringify JSON.parse
                  (Fixture.handle (Ok "{}") [Fixture.fragment "{}"; Fixture.end_signal])
                  Fixture.fussy Fixture.stream_request tt)).
  - intros s. reflexivity.
  - intros e s. reflexivity.
Defined.

Lemma end_signal_exception_escapes_witness :
  SglangClient.invoke
    (SglangClient.stream_callback JSON.parse (ClientTestTs.consumer TestRun.stdout))
    Fixture.end_signal StreamTest.initial
  = (StreamTest.initial,
     [EvOnChunk JNull; EvUncaught (JS.cannot_read "null" "choices")], Ok tt).
Proof.
  apply (proj1 (end_signal_exception_escapes JSON.parse
                  (ClientTestTs.consumer TestRun.stdout)
                  Fixture.end_signal StreamTest.initial StreamTest.initial
                  (JS.cannot_read "null" "choices"))).
  - reflexivity.
  - reflexivity.
  - reflexivity.
Defined.

Lemma onError_gets_transport_and_parse_errors_witness :
  onError_args
    (events (Run.stream [Fixture.fragment "oops"; Fixture.failure Fixture.transport_down]))
  = [JSON.SyntaxError "Unexpected token in JSON"; Fixture.transport_down].
Proof.
  unfold Run.stream.
  rewrite (onError_gets_transport_and_parse_errors JSON.stringify JSON.parse
             (Fixture.handle (Ok Fixture.response_payload)
                [Fixture.fragment "oops"; Fixture.failure Fixture.transport_down])
             Fixture.keeper Fixture.stream_request ([], [])).
  - reflexivity.
  - intros chunk s. reflexivity.
Defined.

Lemma test_content_is_concatenation_witness :
  StreamTest.delta_text (Run.chunk "He") = "He".
Proof.
  apply (proj1 (proj2 (test_content_is_concatenation TestRun.stdout JSON.stringify
                         JSON.parse (Fixture.handle (Ok "{}") []) Fixture.stream_request
                         StreamTest.initial))
           _ [("index", JNum 0); ("delta", JObj [("content", JStr "He")]);
              ("finish_reason", JNull)]
           [] [("content", JStr "He")] "He");
    reflexivity.
Defined.

Lemma test_promise_settles_once_witness :
  StreamTest.streamPromise
    (final_state
       (SglangClient.chatCompletionStream JSON.stringify JSON.parse
          (Fixture.handle (Ok "{}") [Fixture.failure Fixture.transport_down])
          Fixture.stream_request (ClientTestJs.consumer TestRun.stdout)
          (StreamTest.mkState "Hello" JS.Fulfilled [] [] [])))
  = JS.Fulfilled.
Proof.
  apply (test_promise_settles_once TestRun.stdout JSON.stringify JSON.parse
           (Fixture.handle (Ok "{}") [Fixture.failure Fixture.transport_down])
           Fixture.stream_request (StreamTest.mkState "Hello" JS.Fulfilled [] [] [])).
  discriminate.
Defined.

Lemma test_promise_decided_by_first_ending_witness :
  StreamTest.streamPromise
    (final_state (TestRun.js [Fixture.fragment (Fixture.chunk_payload "He");
                              Fixture.failure Fixture.transport_down;
                              Fixture.end_signal]))
  = JS.Rejected Fixture.transport_down.
Proof.
  apply (proj2 (proj2 (test_promise_decided_by_first_ending TestRun.stdout JSON.stringify
                         JSON.parse
                         (Fixture.handle (Ok Fixture.response_payload)
                            [Fixture.fragment (Fixture.chunk_payload "He");
                             Fixture.failure Fixture.transport_down;
                             Fixture.end_signal])
                         Fixture.stream_request StreamTest.initial))
           [Fixture.fragment (Fixture.chunk_payload "He")]
           (Fixture.failure Fixture.transport_down)
           [Fixture.end_signal]).
  - reflexivity.
  - intros inv' [<- | []]. vm_compute. reflexivity.
  - reflexivity.
  - reflexivity.
Defined.

Lemma test_consumer_contains_exceptions_witness :
  snd (onChunk (ClientTestJs.consumer TestRun.stdout)
         (JObj [("choices", JArr [])]) StreamTest.initial)
  = Throw (JS.cannot_read "undefined" "delta").
Proof.
  apply (proj1 (proj2 (test_consumer_contains_exceptions TestRun.stdout JSON.stringify
                         JSON.parse (Fixture.handle (Ok "{}") []) Fixture.stream_request
                         StreamTest.initial))).
  - reflexivity.
  - discriminate.
Defined.

Lemma ts_end_signal_raises_TypeError_witness :
  StreamTest.streamPromise
    (final_state
       (SglangClient.chatCompletionStream JSON.stringify JSON.parse
          (Fixture.handle (Ok "{}")
             [Fixture.fragment (Fixture.chunk_payload "He"); Fixture.end_signal])
          Fixture.stream_request (ClientTestTs.consumer TestRun.stdout) StreamTest.initial))
  <> JS.Fulfilled.
Proof.
  apply (proj2 (proj2 (ts_end_signal_raises_TypeError TestRun.stdout JSON.stringify
                         JSON.parse
                         (Fixture.handle (Ok "{}")
                            [Fixture.fragment (Fixture.chunk_payload "He");
                             Fixture.end_signal])
                         Fixture.stream_request StreamTest.initial))).
  discriminate.
Defined.
